(** * rrna_norm: normalising a 16S count table by rRNA copy number

    A shallow embedding of [src/rrna_norm.py] (class [rrnaNorm]) and the
    properties of its reference curation, input reconciliation and
    normalisation.

    Conventions of the embedding.
    - Text is [string]; a character is a code point below 256, classified as
      Python 3 classifies it ([str.isspace], the [\w] and [\s] of [re] on
      [str] patterns).
    - A Python [dict] is an insertion-ordered association list
      ([Py.dict]): assignment to a present key keeps the key's position.
    - An exception is a value of [Py.exn]; code that can raise returns
      [Py.result].
    - Numbers (copy numbers, counts) are kept behind the interface [Arith];
      the arithmetic of the program is IEEE binary64 ([Float64]). The sum
      of a column by pandas is an operation of that interface: the order
      of its additions and its treatment of NaN belong to the library.
    - Files are read before and written after: [_curate_db] starts from the
      lines of the reference file, [_curate_input] from the index of the
      count table, and [normalise] returns what it prints together with
      the table it writes. The progress messages of the two curation
      methods are left out; the duplicate report is read off
      [already_present_dict]. *)

From Stdlib Require Import String Ascii List NArith ZArith Lia Bool.
From Stdlib Require PrimInt63 PrimFloat.
Import ListNotations.
Open Scope string_scope.

(** ** Python primitives *)

Module Py.

Inductive exn : Type :=
| IndexError
| KeyError
| ValueError
| ZeroDivisionError
| TypeError
| RuntimeError (msg : string).

Inductive result (A : Type) : Type :=
| Ok (a : A)
| Raise (e : exn).
Arguments Ok {A} a.
Arguments Raise {A} e.

Definition bind {A B : Type} (m : result A) (f : A -> result B) : result B :=
  match m with
  | Ok a => f a
  | Raise e => Raise e
  end.

Definition code (c : ascii) : N := N_of_ascii c.

Definition between (lo hi : N) (c : ascii) : bool :=
  ((lo <=? code c) && (code c <=? hi))%N.

(** [str.isspace] of one character: TAB..CR, FS..US, space, NEL, NBSP. *)
Definition isspace (c : ascii) : bool :=
  between 9 13 c || between 28 32 c || between 133 133 c || between 160 160 c.

(** Alphanumeric code points below 256: digits and letters of ASCII, and of
    Latin-1 the letters, the superscript digits and the vulgar fractions. *)
Definition isalnum (c : ascii) : bool :=
  between 48 57 c || between 65 90 c || between 97 122 c
  || between 170 170 c || between 178 179 c || between 181 181 c
  || between 185 186 c || between 188 190 c
  || between 192 214 c || between 216 246 c || between 248 255 c.

(** [\w] of [re]: alphanumeric or underscore. *)
Definition isword (c : ascii) : bool := isalnum c || between 95 95 c.

(** [s.rstrip()]: drop the trailing whitespace. *)
Fixpoint rstrip (s : string) : string :=
  match s with
  | EmptyString => EmptyString
  | String c s' =>
      match rstrip s' with
      | EmptyString => if isspace c then EmptyString else String c EmptyString
      | r => String c r
      end
  end.

(** [s.lstrip()] and [s.strip()]. *)
Fixpoint lstrip (s : string) : string :=
  match s with
  | EmptyString => EmptyString
  | String c s' => if isspace c then lstrip s' else s
  end.

Definition strip (s : string) : string := lstrip (rstrip s).

(** [s.split(sep)] for a one-character separator: never empty. *)
Fixpoint split (sep : ascii) (s : string) : list string :=
  match s with
  | EmptyString => [EmptyString]
  | String c s' =>
      if Ascii.eqb c sep then EmptyString :: split sep s'
      else match split sep s' with
           | f :: fs => String c f :: fs
           | [] => [String c EmptyString]
           end
  end.

(** [sep.join(items)]. *)
Definition join (sep : string) (items : list string) : string :=
  String.concat sep items.

(** [l[i]] for [i >= 0]. *)
Definition getitem {A : Type} (l : list A) (i : nat) : result A :=
  match nth_error l i with
  | Some a => Ok a
  | None => Raise IndexError
  end.

(** [l[:i]] for any integer [i]: a negative [i] counts from the end, and the
    bound is clipped to the list. *)
Definition slice_to {A : Type} (l : list A) (i : Z) : list A :=
  let n := Z.of_nat (length l) in
  let stop := if (i <? 0)%Z then Z.max 0 (n + i) else Z.min i n in
  firstn (Z.to_nat stop) l.

(** [range(start, stop, -1)]: start, start-1, ... while above [stop]. *)
Definition range_down (start stop : Z) : list Z :=
  map (fun j => (start - Z.of_nat j)%Z) (seq 0 (Z.to_nat (start - stop))).

(** *** Dictionaries, in insertion order *)

Definition dict (V : Type) : Type := list (string * V).

Fixpoint get {V : Type} (d : dict V) (k : string) : option V :=
  match d with
  | [] => None
  | (k', v) :: d' => if String.eqb k' k then Some v else get d' k
  end.

(** [k in d]. *)
Definition mem {V : Type} (d : dict V) (k : string) : bool :=
  match get d k with Some _ => true | None => false end.

(** [d[k] = v]: overwrite in place, or append a new key. *)
Fixpoint set {V : Type} (d : dict V) (k : string) (v : V) : dict V :=
  match d with
  | [] => [(k, v)]
  | (k', v') :: d' =>
      if String.eqb k' k then (k', v) :: d' else (k', v') :: set d' k v
  end.

(** [d[k]]. *)
Definition lookup {V : Type} (d : dict V) (k : string) : result V :=
  match get d k with
  | Some v => Ok v
  | None => Raise KeyError
  end.

Definition keys {V : Type} (d : dict V) : list string := map fst d.
Definition values {V : Type} (d : dict V) : list V := map snd d.

(** [d[k] += 1] on a [defaultdict(lambda: dflt)]. *)
Definition incr (dflt : nat) (d : dict nat) (k : string) : dict nat :=
  match get d k with
  | Some n => set d k (n + 1)
  | None => set d k (dflt + 1)
  end.

End Py.

Import Py.

Notation "x <- m ;; k" := (Py.bind m (fun x => k))
  (at level 61, m at next level, right associativity).

(** ** The fragment of [re] the patterns use

    A backtracking matcher in continuation style: a pattern is tried against
    the text, greedy operators try the longer alternative first, and the
    continuation is the rest of the pattern. There is one capturing group. *)

Module Re.

Inductive regex : Type :=
| Lit (c : ascii)               (* one literal character *)
| Opt (r : regex)               (* r?  *)
| Plus (cls : ascii -> bool)    (* [cls]+ *)
| Group (r : regex)             (* (r), group 1 *)
| Ahead (r : regex)             (* (?=r) *)
| Seq (r1 r2 : regex).

(** What [s] lost to reach its suffix [rest]. *)
Definition consumed (s rest : string) : string :=
  substring 0 (String.length s - String.length rest) s.

Fixpoint plus_greedy {R : Type} (cls : ascii -> bool)
    (k : string -> option R) (s : string) : option R :=
  match s with
  | EmptyString => None
  | String c s' =>
      if cls c then
        match plus_greedy cls k s' with
        | Some x => Some x
        | None => k s'
        end
      else None
  end.

Fixpoint rmatch (r : regex) (R : Type) (g : option string) (s : string)
    (k : option string -> string -> option R) : option R :=
  match r with
  | Lit c =>
      match s with
      | String c' s' => if Ascii.eqb c c' then k g s' else None
      | EmptyString => None
      end
  | Opt r1 =>
      match rmatch r1 R g s k with
      | Some x => Some x
      | None => k g s
      end
  | Plus cls => plus_greedy cls (k g) s
  | Group r1 => rmatch r1 R g s (fun _ rest => k (Some (consumed s rest)) rest)
  | Ahead r1 =>
      match rmatch r1 (option string) g s (fun g' _ => Some g') with
      | Some g' => k g' s
      | None => None
      end
  | Seq r1 r2 => rmatch r1 R g s (fun g' rest => rmatch r2 R g' rest k)
  end.

(** [r.match(s)]: the content of group 1 when [r] matches at the start. *)
Definition match_here (r : regex) (s : string) : option (option string) :=
  rmatch r (option string) None s (fun g _ => Some g).

(** [r.search(s)]: the leftmost position where [r] matches. *)
Fixpoint search (r : regex) (s : string) : option (option string) :=
  match match_here r s with
  | Some g => Some g
  | None =>
      match s with
      | EmptyString => None
      | String _ s' => search r s'
      end
  end.

(** [match.groups()[0]]; group 1 is not optional in the patterns below, so
    it is set in every match. *)
Definition group1 (m : option string) : string :=
  match m with
  | Some g => g
  | None => EmptyString
  end.

End Re.

Import Re.

(** ** [rrnaNorm._generate_taxa_reg_exs] *)

(** [[\w\s]] *)
Definition word_or_space (c : ascii) : bool := isword c || isspace c.

(** [t__\[?([\w\s]+)] followed by the look-ahead [la]. *)
Definition rank_re (t : ascii) (la : regex) : regex :=
  Seq (Lit t) (Seq (Lit "_") (Seq (Lit "_")
    (Seq (Opt (Lit "[")) (Seq (Group (Plus word_or_space)) (Ahead la))))).

(** [\]?;] *)
Definition close_semi : regex := Seq (Opt (Lit "]")) (Lit ";").

(** [\]?] *)
Definition close_only : regex := Opt (Lit "]").

Definition _generate_taxa_reg_exs : list regex :=
  [ rank_re "k" close_semi;
    rank_re "p" close_semi;
    rank_re "c" close_semi;
    rank_re "o" close_semi;
    rank_re "f" close_semi;
    rank_re "g" close_semi;
    rank_re "s" close_only ].

(** The inner loop of [_curate_db] and of [_curate_input]: apply the
    patterns in order, append group 1 of each match (passed through [post]),
    and [break] at the first pattern that does not match. *)
Fixpoint key_items (post : string -> string) (reg_exs : list regex)
    (taxa : string) : list string :=
  match reg_exs with
  | [] => []
  | reg_ex :: rest =>
      match search reg_ex taxa with
      | Some m => post (group1 m) :: key_items post rest taxa
      | None => []
      end
  end.

(** [_curate_db] appends [match.groups()[0]] as it is. *)
Definition db_key_items (taxa : string) : list string :=
  key_items (fun g => g) _generate_taxa_reg_exs taxa.

(** [_curate_input] appends [match.groups()[0].rstrip()]. *)
Definition input_key_items (taxa : string) : list string :=
  key_items rstrip _generate_taxa_reg_exs taxa.

(** ** Numbers

    What the program asks of its numbers: Python's [sum] starts from [0]
    and adds, [/] divides, [len] yields an integer that is divided by,
    [float] reads a number from text ([None] stands for [ValueError]), and
    pandas adds up the cells of a column ([column_sum], one entry of
    [DataFrame.sum(axis=0)]). *)

Class Arith : Type := {
  num : Type;
  zero : num;
  add : num -> num -> num;
  div : num -> num -> num;
  of_nat : nat -> num;
  float : string -> option num;
  column_sum : list num -> num
}.

(** [sum(xs)] *)
Definition sum {A : Arith} (xs : list num) : num := fold_left add xs zero.

Definition to_float {A : Arith} (txt : string) : result num :=
  match float txt with
  | Some v => Ok v
  | None => Raise ValueError
  end.

(** A [for] loop over [l] whose body can raise. *)
Fixpoint for_each {S X : Type} (body : S -> X -> result S) (l : list X)
    (s : S) : result S :=
  match l with
  | [] => Ok s
  | x :: l' => s' <- body s x ;; for_each body l' s'
  end.

(** ** [rrnaNorm._curate_db] *)

Section Curation.

Context {A : Arith}.

(** What [_curate_db] leaves behind: the lookup table and the figures of its
    duplicate report. *)
Record db_state : Type := {
  taxa_to_rrna_copy_dict : dict num;
  count_added : nat;
  already_present_dict : dict nat
}.

(** [keep_input_file]: the lines that start with [k], right-stripped.
    [line[0]] raises on an empty line. *)
Fixpoint keep_lines (input_file : list string) : result (list string) :=
  match input_file with
  | [] => Ok []
  | line :: rest =>
      match line with
      | EmptyString => Raise IndexError
      | String c _ =>
          kept <- keep_lines rest ;;
          Ok (if Ascii.eqb c "k" then rstrip line :: kept else kept)
      end
  end.

(** [two_d_list]: the first two tab-separated fields of each kept line. *)
Definition two_d_list (keep_input_file : list string) : list (list string) :=
  map (fun line => firstn 2 (split "009" line)) keep_input_file.

(** [taxa_str_to_correction_factor[two_i_list[0]] = float(two_i_list[1])]:
    the right-hand side is evaluated first. *)
Definition read_factor (d : dict num) (two_i_list : list string)
    : result (dict num) :=
  txt <- getitem two_i_list 1 ;;
  v <- to_float txt ;;
  k <- getitem two_i_list 0 ;;
  Ok (set d k v).

(** The body of the curation loop, for the raw annotation [k_list[i]]. *)
Definition curate_key (taxa_str_to_correction_factor : dict num)
    (st : db_state) (raw : string) : result db_state :=
  let key_items_list := db_key_items raw in
  match key_items_list with
  | [] => Ok st
  | _ :: _ =>
      let str_key_to_add := join ";" key_items_list in
      if negb (mem (taxa_to_rrna_copy_dict st) str_key_to_add) then
        v <- lookup taxa_str_to_correction_factor raw ;;
        Ok {| taxa_to_rrna_copy_dict :=
                set (taxa_to_rrna_copy_dict st) str_key_to_add v;
              count_added := count_added st + 1;
              already_present_dict := already_present_dict st |}
      else
        Ok {| taxa_to_rrna_copy_dict := taxa_to_rrna_copy_dict st;
              count_added := count_added st;
              already_present_dict :=
                incr 1 (already_present_dict st) str_key_to_add |}
  end.

Definition db_init : db_state :=
  {| taxa_to_rrna_copy_dict := [];
     count_added := 0;
     already_present_dict := [] |}.

(** [input_file] is what [f.readlines()] returned. *)
Definition _curate_db (input_file : list string) : result db_state :=
  keep_input_file <- keep_lines input_file ;;
  taxa_str_to_correction_factor <-
    for_each read_factor (two_d_list keep_input_file) [] ;;
  for_each (curate_key taxa_str_to_correction_factor)
    (keys taxa_str_to_correction_factor) db_init.

(** The three figures printed after the loop. *)
Definition duplicate_instances (st : db_state) : nat :=
  list_sum (values (already_present_dict st)).

Definition duplicated_keys (st : db_state) : nat :=
  length (already_present_dict st).

(** ** [rrnaNorm._curate_input] *)

(** The shortening loop: [for i in range(-1, -1*len(key_items_list), -1)],
    left at the first [i] whose prefix is a key of the table. *)
Fixpoint first_short (ref : dict num) (key_items_list : list string)
    (indices : list Z) : option (Z * string) :=
  match indices with
  | [] => None
  | i :: rest =>
      let new_str_to_test := join ";" (slice_to key_items_list i) in
      if mem ref new_str_to_test then Some (i, new_str_to_test)
      else first_short ref key_items_list rest
  end.

Definition shorten_range (key_items_list : list string) : list Z :=
  range_down (-1) (-1 * Z.of_nat (length key_items_list)).

(** The body of the loop over [count_df.index]. *)
Definition map_taxon (ref : dict num) (input_taxa_map : dict string)
    (taxa_a : string) : result (dict string) :=
  if mem input_taxa_map taxa_a then Ok input_taxa_map
  else
    let key_items_list := input_key_items taxa_a in
    match key_items_list with
    | [] => Raise (RuntimeError "Key conversion was not possible.")
    | _ :: _ =>
        let str_key_to_add := join ";" key_items_list in
        if negb (mem ref str_key_to_add) then
          match first_short ref key_items_list
                  (shorten_range key_items_list) with
          | Some (_, new_str_to_test) =>
              Ok (set input_taxa_map taxa_a new_str_to_test)
          | None => Ok input_taxa_map
          end
        else Ok (set input_taxa_map taxa_a str_key_to_add)
    end.

(** [index] is [count_df.index] after [set_index('Taxonomy')]; the map
    starts empty. *)
Definition _curate_input (ref : dict num) (index : list string)
    : result (dict string) :=
  for_each (map_taxon ref) index [].

End Curation.

(** ** [rrnaNorm.normalise] *)

Section Normalise.

Context {A : Arith}.

(** [count_df] once [Taxonomy] is its index: the last column (the OTU
    identifiers, which [normalise] sets aside and reattaches) is kept apart
    from the numeric sample columns, whose cells are held row by row. *)
Record DataFrame : Type := {
  index : list string;
  columns : list string;
  cells : list (list num);
  last_col_name : string;
  last_col : list string
}.

(** What the row loop carries: the numeric cells and what was written to
    standard output. *)
Record norm_state : Type := {
  df_cells : list (list num);
  stdout : list string
}.

(** [print(text)] *)
Definition print (out : list string) (text : string) : list string :=
  (out ++ [(text ++ String "010" "")%string])%list.

(** [df.iloc[i] = row] on the cells. *)
Definition set_row (rows : list (list num)) (i : nat) (row : list num)
    : list (list num) :=
  (firstn i rows ++ row :: skipn (S i) rows)%list.

(** The divisor of the row named [name]. *)
Definition divisor (ref : dict num) (input_taxa_map : dict string)
    (grand_total : num) (name : string) : result num :=
  if negb (mem input_taxa_map name) then Ok grand_total
  else key <- lookup input_taxa_map name ;; lookup ref key.

(** The body of [for i in range(len(list_of_index_names))]. *)
Definition correct_row (ref : dict num) (input_taxa_map : dict string)
    (grand_total : num) (list_of_index_names OTUs : list string)
    (st : norm_state) (i : nat) : result norm_state :=
  name <- getitem list_of_index_names i ;;
  otu <- getitem OTUs i ;;
  let out :=
    (stdout st
       ++ [(String "013" "Correcting " ++ name ++ " (" ++ otu ++ ")")%string])%list in
  row <- getitem (df_cells st) i ;;
  d <- divisor ref input_taxa_map grand_total name ;;
  Ok {| df_cells := set_row (df_cells st) i (map (fun x => div x d) row);
        stdout := out |}.

(** [sum(d.values())/len(d)] *)
Definition grand_average (ref : dict num) : result num :=
  match length ref with
  | O => Raise ZeroDivisionError
  | n => Ok (div (sum (values ref)) (of_nat n))
  end.

(** The rows after the correction loop. *)
Definition correct_rows (ref : dict num) (input_taxa_map : dict string)
    (grand_total : num) (df : DataFrame) (out : list string)
    : result norm_state :=
  for_each (correct_row ref input_taxa_map grand_total (index df) (last_col df))
    (seq 0 (length (index df)))
    {| df_cells := cells df; stdout := out |}.

(** Column [j] of the cells. *)
Definition column (rows : list (list num)) (j : nat) : list num :=
  map (fun row => nth j row zero) rows.

(** [df.sum(axis=0)]: one total per sample column. *)
Definition col_sums (ncols : nat) (rows : list (list num)) : list num :=
  map (fun j => column_sum (column rows j)) (seq 0 ncols).

(** [row / totals], cell by cell. *)
Fixpoint div_row (row totals : list num) : list num :=
  match row, totals with
  | x :: row', t :: totals' => div x t :: div_row row' totals'
  | _, _ => []
  end.

(** [df.div(df.sum(axis=0), axis=1)] *)
Definition make_relative (ncols : nat) (rows : list (list num))
    : list (list num) :=
  map (fun row => div_row row (col_sums ncols rows)) rows.

(** [normalise]: what it prints, and the table it writes to
    [output_path]. *)
Definition normalise (ref : dict num) (input_taxa_map : dict string)
    (count_df : DataFrame) (output_path : string)
    : result (list string * DataFrame) :=
  let out := print [] (String "010" "NORMALISING") in
  grand_total <- grand_average ref ;;
  st <- correct_rows ref input_taxa_map grand_total count_df out ;;
  let out := print (stdout st) (String "010" "Normalising count data") in
  let relative := make_relative (length (columns count_df)) (df_cells st) in
  let out := print out ("Writing out to " ++ output_path) in
  let written := {| index := index count_df;
                    columns := columns count_df;
                    cells := relative;
                    last_col_name := last_col_name count_df;
                    last_col := last_col count_df |} in
  let out := print out (String "010" (String "010" (String "010" "FINISHED"))) in
  Ok (out, written).

(** The program: [rrnaNorm()] then [.normalise()]. Only [normalise]
    writes the output file, so a run that raises leaves none. *)
Definition main (db_lines : list string) (count_df : DataFrame)
    (output_path : string) : result (list string * DataFrame) :=
  db <- _curate_db db_lines ;;
  input_taxa_map <-
    _curate_input (taxa_to_rrna_copy_dict db) (index count_df) ;;
  normalise (taxa_to_rrna_copy_dict db) input_taxa_map count_df output_path.

End Normalise.

Arguments DataFrame A : clear implicits.
Arguments db_state A : clear implicits.
Arguments norm_state A : clear implicits.

(** ** The index as [read_csv] leaves it

    A value of [count_df.index] is text, or no string at all: NaN for an
    empty [Taxonomy] cell, a number when the whole column is numeric. The
    loop of [_curate_input] does not find such a value in its map and
    passes it to [reg_ex.search], which raises [TypeError]. The model
    above is the loop over an index of text; this is the loop over any
    index. *)

Inductive index_value : Type :=
| Text (taxa_a : string)
| NotText.

Definition map_value {A : Arith} (ref : dict num) (input_taxa_map : dict string)
    (v : index_value) : result (dict string) :=
  match v with
  | Text taxa_a => map_taxon ref input_taxa_map taxa_a
  | NotText => Raise TypeError
  end.

Definition _curate_input_values {A : Arith} (ref : dict num)
    (values : list index_value) : result (dict string) :=
  for_each (map_value ref) values [].

(** The count table once [Taxonomy] is its index, with the index values as
    they were read. *)
Record Table (A : Arith) : Type := {
  taxonomy : list index_value;
  sample_names : list string;
  counts : list (list (@num A));
  id_name : string;
  ids : list string
}.
Arguments taxonomy {A} t.
Arguments sample_names {A} t.
Arguments counts {A} t.
Arguments id_name {A} t.
Arguments ids {A} t.

Definition as_text (v : index_value) : string :=
  match v with
  | Text taxa_a => taxa_a
  | NotText => EmptyString
  end.

(** The frame [normalise] works on; it is reached only when every index
    value is text. *)
Definition to_frame {A : Arith} (t : Table A) : DataFrame A :=
  {| index := map as_text (taxonomy t);
     columns := sample_names t;
     cells := counts t;
     last_col_name := id_name t;
     last_col := ids t |}.

(** The program on the lines of the reference file and the table read
    from the count file. *)
Definition run {A : Arith} (db_lines : list string) (t : Table A)
    (output_path : string) : result (list string * DataFrame A) :=
  db <- _curate_db db_lines ;;
  input_taxa_map <-
    _curate_input_values (taxa_to_rrna_copy_dict db) (taxonomy t) ;;
  normalise (taxa_to_rrna_copy_dict db) input_taxa_map (to_frame t)
    output_path.

(** An index value the reconciliation accepts: text with a kingdom
    label. *)
Definition parses (v : index_value) : Prop :=
  exists taxa_a, v = Text taxa_a /\ input_key_items taxa_a <> [].

(** The exception at a value the reconciliation does not accept:
    [reg_ex.search] raises on what is no text, the loop itself on a text
    without a label. *)
Definition refusal (v : index_value) : exn :=
  match v with
  | Text _ => RuntimeError "Key conversion was not possible."
  | NotText => TypeError
  end.

(** ** IEEE binary64

    The arithmetic of the program, on Rocq's primitive floats. [float] is
    Python's reading of a float from text: surrounding whitespace, a sign,
    then [inf], [infinity] or [nan] in any case, or digits (single
    underscores between them) with an optional point and exponent,
    rounded to the nearest double. [column_sum] is pandas' [sum] of a
    column: NaN counts as zero ([skipna]), and the additions are those of
    numpy's pairwise summation over the cells of the column (CPython
    before 3.12 for the built-in [sum], which adds from the left). *)

Module Float64.

Import PrimInt63 PrimFloat.

Fixpoint int_of_nat (n : nat) : PrimInt63.int :=
  match n with
  | O => 0%uint63
  | S n' => PrimInt63.add 1%uint63 (int_of_nat n')
  end.

Fixpoint int_of_pos (p : positive) : PrimInt63.int :=
  match p with
  | xH => 1%uint63
  | xO p' => PrimInt63.mul 2%uint63 (int_of_pos p')
  | xI p' => PrimInt63.add (PrimInt63.mul 2%uint63 (int_of_pos p')) 1%uint63
  end.

Definition int_of_Z (z : Z) : PrimInt63.int :=
  match z with
  | Zpos p => int_of_pos p
  | _ => 0%uint63
  end.

(** The double nearest to [n / d], ties to even, for positive [n] and [d]:
    the quotient is cut to 53 bits (fewer below the normal range) and
    rounded once; beyond the largest double it is infinity. *)
Definition nearest (n d : Z) : PrimFloat.float :=
  let l := (Z.log2 n - Z.log2 d)%Z in
  let below := if (0 <=? l)%Z then (n <? d * 2 ^ l)%Z else (n * 2 ^ (- l) <? d)%Z in
  let e := Z.max ((if below then l - 1 else l) - 52) (-1074) in
  let num := if (0 <=? e)%Z then n else (n * 2 ^ (- e))%Z in
  let den := if (0 <=? e)%Z then (d * 2 ^ e)%Z else d in
  let q := (num / den)%Z in
  let r := (num mod den)%Z in
  let up := ((den <? 2 * r) || ((den =? 2 * r) && Z.odd q))%Z in
  let q' := if up then (q + 1)%Z else q in
  if ((971 <? e) || ((e =? 971) && (q' =? 2 ^ 53)))%Z then infinity
  else ldshiftexp (of_uint63 (int_of_Z q')) (int_of_Z (e + 2101)).

Definition digit (c : ascii) : option Z :=
  if between 48 57 c then Some (Z.of_N (code c) - 48)%Z else None.

(** The rest of a [digitpart]: digits, each with at most one underscore
    before it. *)
Fixpoint more_digits (s : string) : list Z * string :=
  match s with
  | String c s' =>
      match digit c with
      | Some d => (d :: fst (more_digits s'), snd (more_digits s'))
      | None =>
          match s' with
          | String c' s'' =>
              match digit c' with
              | Some d =>
                  if Ascii.eqb c "_"
                  then (d :: fst (more_digits s''), snd (more_digits s''))
                  else ([], s)
              | None => ([], s)
              end
          | EmptyString => ([], s)
          end
      end
  | EmptyString => ([], s)
  end.

(** [digit (["_"] digit)*] at the start of [s]: its digits and the rest;
    no digits when [s] does not start with a digit. *)
Definition digitpart (s : string) : list Z * string :=
  match s with
  | String c s' =>
      match digit c with
      | Some d => (d :: fst (more_digits s'), snd (more_digits s'))
      | None => ([], s)
      end
  | EmptyString => ([], s)
  end.

Definition value_of (ds : list Z) : Z :=
  fold_left (fun acc d => (10 * acc + d)%Z) ds 0%Z.

Definition lower (c : ascii) : ascii :=
  if between 65 90 c then ascii_of_N (code c + 32) else c.

Fixpoint lowercase (s : string) : string :=
  match s with
  | EmptyString => EmptyString
  | String c s' => String (lower c) (lowercase s')
  end.

(** The sign at the start of [s], and what follows it. *)
Definition signed (s : string) : bool * string :=
  match s with
  | String c s' =>
      if Ascii.eqb c "-" then (true, s')
      else if Ascii.eqb c "+" then (false, s')
      else (false, s)
  | EmptyString => (false, s)
  end.

(** [exponent], when there is one: [None] for a malformed one. *)
Definition exponent (s : string) : option Z :=
  match s with
  | EmptyString => Some 0%Z
  | String c s' =>
      if Ascii.eqb (lower c) "e" then
        match digitpart (snd (signed s')) with
        | (d :: ds, EmptyString) =>
            Some (if fst (signed s') then (- value_of (d :: ds))%Z
                  else value_of (d :: ds))
        | _ => None
        end
      else None
  end.

(** [floatnumber]: all its digits as one integer, and the power of ten. *)
Definition floatnumber (s : string) : option (Z * Z) :=
  let ip := fst (digitpart s) in
  let s1 := snd (digitpart s) in
  let after_dot :=
    match s1 with
    | String c t => if Ascii.eqb c "." then digitpart t else ([], s1)
    | EmptyString => ([], s1)
    end in
  let fp := fst after_dot in
  match (ip ++ fp)%list with
  | [] => None
  | ds =>
      match exponent (snd after_dot) with
      | Some e => Some (value_of ds, (e - Z.of_nat (length fp))%Z)
      | None => None
      end
  end.

Definition absfloat (s : string) : option PrimFloat.float :=
  let l := lowercase s in
  if String.eqb l "inf" || String.eqb l "infinity" then Some infinity
  else if String.eqb l "nan" then Some nan
  else
    match floatnumber s with
    | Some (m, e) =>
        Some (if (m =? 0)%Z then 0%float
              else if (0 <=? e)%Z then nearest (m * 10 ^ e) 1
              else nearest m (10 ^ (- e)))
    | None => None
    end.

(** [float(txt)] for text: surrounding whitespace dropped, then a sign and
    a number, [inf], [infinity] or [nan]. *)
Definition float_of_str (txt : string) : option PrimFloat.float :=
  let s := strip txt in
  match absfloat (snd (signed s)) with
  | Some x => Some (if fst (signed s) then PrimFloat.opp x else x)
  | None => None
  end.


(** NaN counts as zero. *)
Definition nan_to_zero (x : PrimFloat.float) : PrimFloat.float :=
  if PrimFloat.is_nan x then 0%float else x.

Fixpoint zip_add (r a : list PrimFloat.float) : list PrimFloat.float :=
  match r, a with
  | x :: r', y :: a' => PrimFloat.add x y :: zip_add r' a'
  | _, _ => r
  end.

(** [k] times: add the next eight cells to the eight accumulators. *)
Fixpoint sweep (k : nat) (r a : list PrimFloat.float)
    : list PrimFloat.float * list PrimFloat.float :=
  match k with
  | O => (r, a)
  | S k' => sweep k' (zip_add r (firstn 8 a)) (skipn 8 a)
  end.

(** From 8 to 128 cells: eight accumulators over the blocks of eight,
    added pairwise, then the cells left over. *)
Definition block (a : list PrimFloat.float) : PrimFloat.float :=
  let swept := sweep (length a / 8 - 1) (firstn 8 a) (skipn 8 a) in
  match fst swept with
  | [r0; r1; r2; r3; r4; r5; r6; r7] =>
      fold_left PrimFloat.add (snd swept)
        (PrimFloat.add
           (PrimFloat.add (PrimFloat.add r0 r1) (PrimFloat.add r2 r3))
           (PrimFloat.add (PrimFloat.add r4 r5) (PrimFloat.add r6 r7)))
  | _ => fold_left PrimFloat.add a 0%float
  end.

(** numpy's pairwise sum: a plain loop below 8 cells, [block] up to 128,
    and beyond that the two halves (the first a multiple of 8) added. *)
Fixpoint pairwise (fuel : nat) (a : list PrimFloat.float) : PrimFloat.float :=
  if (length a <? 8)%nat then fold_left PrimFloat.add a 0%float
  else if (length a <=? 128)%nat then block a
  else
    match fuel with
    | O => block a
    | S fuel' =>
        let n2 := (length a / 2 - (length a / 2) mod 8)%nat in
        PrimFloat.add (pairwise fuel' (firstn n2 a))
                      (pairwise fuel' (skipn n2 a))
    end.

Definition nansum (xs : list PrimFloat.float) : PrimFloat.float :=
  PrimFloat.add 0%float (pairwise (length xs) (map nan_to_zero xs)).

Definition arith : Arith :=
  Build_Arith PrimFloat.float 0%float PrimFloat.add PrimFloat.div
    (fun n => of_uint63 (int_of_nat n)) float_of_str nansum.

End Float64.

Import (notations) PrimInt63 PrimFloat.

Definition f64 : Arith := Float64.arith.

(** ** Reference points for the statements *)

(** The prefixes of [items] of lengths n-1, n-2, ..., 1, joined. *)
Definition shortenings (items : list string) : list string :=
  map (fun k => join ";" (firstn k items)) (rev (seq 1 (length items - 1))).

(** The key a taxon with these labels resolves to: the full key when the
    table has it, else the first shortening the table has. *)
Definition resolution {V : Type} (ref : dict V) (items : list string)
    : option string :=
  if mem ref (join ";" items) then Some (join ";" items)
  else find (mem ref) (shortenings items).

(** A reconciliation map is sound for a table when each of its entries is
    the resolution of a taxon that parses. *)
Definition sound_for {V : Type} (ref : dict V) (m : dict string) : Prop :=
  forall t k, get m t = Some k ->
    resolution ref (input_key_items t) = Some k /\ input_key_items t <> [].

(** What [normalise] prints for a table with these row names and OTUs. *)
(** The line [normalise] writes for one row. *)
Definition correcting (name otu : string) : string :=
  String "013" "Correcting " ++ name ++ " (" ++ otu ++ ")".

(** What [normalise] prints for a table with these row names and OTUs. *)
Definition progress_report (names OTUs : list string) (output_path : string)
    : list string :=
  let head : string := String "010" "NORMALISING" ++ String "010" "" in
  let rescaling : string :=
    String "010" "Normalising count data" ++ String "010" "" in
  let writing : string := "Writing out to " ++ output_path ++ String "010" "" in
  let finished : string :=
    String "010" (String "010" (String "010" "FINISHED")) ++ String "010" "" in
  (head :: map (fun p => correcting (fst p) (snd p)) (combine names OTUs)
     ++ [rescaling; writing; finished])%list.

(** The divisor of a row as a total function of its name, for maps whose
    values are keys of the table. *)
Definition divisor_of {A : Arith} (ref : dict num) (input_taxa_map : dict string)
    (grand_total : num) (name : string) : num :=
  match divisor ref input_taxa_map grand_total name with
  | Ok d => d
  | Raise _ => grand_total
  end.

(** The state of the correction loop once the rows below [k] are divided,
    each by the divisor [dv] gives its name. *)
Definition rows_corrected_below {A : Arith} (dv : string -> num)
    (names : list string) (cells0 : list (list num)) (k : nat)
    (st : norm_state A) : Prop :=
  length (df_cells st) = length names
  /\ forall i name row,
       nth_error names i = Some name ->
       nth_error cells0 i = Some row ->
       nth_error (df_cells st) i
       = Some (if Nat.ltb i k then map (fun x => div x (dv name)) row else row).

(** A table is well formed when it has one row of cells and one OTU per
    index entry, and every row has one cell per sample column. *)
Definition well_formed {A : Arith} (df : DataFrame A) : Prop :=
  length (cells df) = length (index df)
  /\ length (last_col df) = length (index df)
  /\ Forall (fun row => length row = length (columns df)) (cells df).

(** The longest prefix of [s] made of characters of [cls], and what
    follows it. *)
Fixpoint span (cls : ascii -> bool) (s : string) : string * string :=
  match s with
  | EmptyString => (EmptyString, EmptyString)
  | String c s' =>
      if cls c then (String c (fst (span cls s')), snd (span cls s'))
      else (EmptyString, s)
  end.

(** [s] without its first character [c], when it starts with it. *)
Definition after (c : ascii) (s : string) : option string :=
  match s with
  | String c' s' => if Ascii.eqb c c' then Some s' else None
  | EmptyString => None
  end.

(** [rest] starts with [;] or with [];]. *)
Definition semi_ahead (rest : string) : bool :=
  match after ";" rest with
  | Some _ => true
  | None =>
      match after "]" rest with
      | Some r => match after ";" r with Some _ => true | None => false end
      | None => false
      end
  end.

(** A rank pattern read as a scanner, with no backtracking: the tag, an
    optional opening bracket, the longest run of word and space characters,
    which must not be empty and, unless the rank is the species, must be
    followed by [;] or [];]. The label is the whole run. *)
Definition rank_scan (t : ascii) (need_semi : bool) (s : string)
    : option string :=
  match after t s with
  | None => None
  | Some s1 =>
      match after "_" s1 with
      | None => None
      | Some s2 =>
          match after "_" s2 with
          | None => None
          | Some s3 =>
              let body := match after "[" s3 with Some s4 => s4 | None => s3 end in
              match fst (span word_or_space body) with
              | EmptyString => None
              | run =>
                  if negb need_semi || semi_ahead (snd (span word_or_space body))
                  then Some run else None
              end
          end
      end
  end.

(** The scanner tried at every position, from the left. *)
Fixpoint rank_find (t : ascii) (need_semi : bool) (s : string)
    : option string :=
  match rank_scan t need_semi s with
  | Some run => Some run
  | None =>
      match s with
      | EmptyString => None
      | String _ s' => rank_find t need_semi s'
      end
  end.

(** The seven ranks: tag, and whether a semicolon must follow the label. *)
Definition ranks : list (ascii * bool) :=
  [("k"%char, true); ("p"%char, true); ("c"%char, true); ("o"%char, true);
   ("f"%char, true); ("g"%char, true); ("s"%char, false)].

(** Every character of [s] satisfies [p]. *)
Fixpoint all_chars (p : ascii -> bool) (s : string) : bool :=
  match s with
  | EmptyString => true
  | String c s' => p c && all_chars p s'
  end.

(** Not the separator of the keys. *)
Definition not_semi (c : ascii) : bool := negb (Ascii.eqb c ";").

(** A line that [_curate_db] keeps. *)
Definition starts_with_k (line : string) : bool :=
  match line with
  | EmptyString => false
  | String c _ => Ascii.eqb c "k"
  end.

(** The fields of a record hold a second field that [float] reads. *)
Definition fields_ok {A : Arith} (two_i_list : list string) : bool :=
  match two_i_list with
  | _ :: txt :: _ =>
      match float txt with Some _ => true | None => false end
  | _ => false
  end.

(** The first two phases of [_curate_db]: the staging dictionary
    [taxa_str_to_correction_factor]. *)
Definition stage {A : Arith} (input_file : list string) : result (dict num) :=
  keep_input_file <- keep_lines input_file ;;
  for_each read_factor (two_d_list keep_input_file) [].

(** The annotation [raw] yields the key [key]. *)
Definition yields (key raw : string) : bool :=
  match db_key_items raw with
  | [] => false
  | items => String.eqb (join ";" items) key
  end.

(** The annotation [raw] has at least a kingdom label. *)
Definition parsable (raw : string) : bool :=
  match db_key_items raw with
  | [] => false
  | _ :: _ => true
  end.

(** The two fields of a record. *)
Definition raw_of (two_i_list : list string) : string := nth 0 two_i_list "".
Definition text_of (two_i_list : list string) : string := nth 1 two_i_list "".

(** The elements of [l] not in [seen], each at its first occurrence. *)
Fixpoint first_seen (seen l : list string) : list string :=
  match l with
  | [] => []
  | x :: l' =>
      if existsb (String.eqb x) seen then first_seen seen l'
      else x :: first_seen (seen ++ [x]) l'
  end.

(** The records of a reference file, as [_curate_db] splits them. *)
Definition records (input_file : list string) : list (list string) :=
  two_d_list (map rstrip (filter starts_with_k input_file)).

(** A line that [_curate_db] reads and drops: not empty, not starting
    with [k]. *)
Definition not_record (line : string) : bool :=
  match line with
  | EmptyString => false
  | String c _ => negb (Ascii.eqb c "k")
  end.

(** No tab character in [s]. *)
Fixpoint no_tab (s : string) : bool :=
  match s with
  | EmptyString => true
  | String c s' => negb (Ascii.eqb c "009") && no_tab s'
  end.

(** ** Sample inputs *)

Definition tab : string := String "009" "".
Definition nl : string := String "010" "".

(** Two reference lines with different text and the same key [A;B],
    between a header and a blank line. *)
Definition db_two_spellings : list string :=
  ["# taxonomy" ++ tab ++ "copies" ++ nl;
   "k__A;p__B;" ++ tab ++ "3.0" ++ nl;
   "k__A; p__B;" ++ tab ++ "5.0" ++ nl;
   nl].

(** The same reference line twice, with two values. *)
Definition db_repeated_line : list string :=
  ["k__A;p__B;" ++ tab ++ "3.0" ++ nl;
   "k__A;p__B;" ++ tab ++ "5.0" ++ nl].

(** A table with the keys [A] and [A;B], and a taxon four ranks deep. *)
Definition ref_AB : dict (@num f64) := [("A", 1%float); ("A;B", 2%float)].
Definition taxon_ABCD : string := "k__A; p__B; c__C; o__D;".

(** A reference file of one record, and a count table whose second row
    carries no rank tag. *)
Definition db_one_record : list string := ["k__A; p__B;" ++ tab ++ "2.0" ++ nl].

Definition df_garbled : DataFrame f64 :=
  @Build_DataFrame f64 [taxon_ABCD; "Unassigned"] ["s1"]
    [[10%float]; [4%float]] "OTU" ["OTU1"; "OTU2"].

(** A count table of two samples, the second all zero; its second taxon
    matches no key of [ref_AB]. *)
Definition df_zero_column : DataFrame f64 :=
  @Build_DataFrame f64 [taxon_ABCD; "k__Z;"] ["s1"; "s2"]
    [[10%float; 0%float]; [3%float; 0%float]] "OTU" ["OTU1"; "OTU2"].

Definition map_ABCD : dict string := [(taxon_ABCD, "A;B")].

(** Two rows of one taxon that has one copy, each with a count of
    [2^1023] (written [8.98846567431158e307] in the file). *)
Definition ref_one_copy : dict (@num f64) := [("A", 1%float)].

Definition df_huge : DataFrame f64 :=
  @Build_DataFrame f64 ["k__A;"; "k__A;"] ["s1"]
    [[0x1p1023%float]; [0x1p1023%float]] "OTU" ["OTU1"; "OTU2"].

(** Eight rows of one taxon that has seven copies, each with a count of
    one. *)
Definition ref_seven_copies : dict (@num f64) := [("A", 7%float)].

Definition df_eight_rows : DataFrame f64 :=
  @Build_DataFrame f64 (repeat "k__A;" 8) ["s1"] (repeat [1%float] 8) "OTU"
    ["OTU1"; "OTU2"; "OTU3"; "OTU4"; "OTU5"; "OTU6"; "OTU7"; "OTU8"].

(** Two rows, the count of the first missing. *)
Definition df_missing_count : DataFrame f64 :=
  @Build_DataFrame f64 ["k__A;"; "k__A;"] ["s1"]
    [[PrimFloat.nan]; [1%float]] "OTU" ["OTU1"; "OTU2"].

(** A count table whose second row has an empty [Taxonomy] cell, before a
    row whose taxon has no label. *)
Definition table_empty_taxonomy : Table f64 :=
  @Build_Table f64 [Text taxon_ABCD; NotText; Text "Unassigned"] ["s1"; "s2"]
    [[10%float; 4%float]; [3%float; 1%float]; [2%float; 5%float]]
    "OTU" ["OTU1"; "OTU2"; "OTU3"].

(** ** Properties *)

(** *** Dictionaries *)

Section DictFacts.

Context {V : Type}.

Lemma get_set_same (d : dict V) k v : get (set d k v) k = Some v.
Proof.
  induction d as [|[k' v'] d IH]; simpl.
  - now rewrite String.eqb_refl.
  - destruct (String.eqb k' k) eqn:E; simpl; rewrite E; auto.
Qed.

Lemma get_set_other (d : dict V) k k' v :
  k <> k' -> get (set d k v) k' = get d k'.
Proof.
  intros Hne. induction d as [|[k0 v0] d IH]; simpl.
  - destruct (String.eqb_spec k k'); congruence.
  - destruct (String.eqb_spec k0 k) as [->|Hk]; simpl.
    + destruct (String.eqb_spec k k'); congruence.
    + now rewrite IH.
Qed.

Lemma mem_get (d : dict V) k : mem d k = true <-> exists v, get d k = Some v.
Proof.
  unfold mem. destruct (get d k); split; intros H; eauto; try discriminate.
  now destruct H.
Qed.

Lemma mem_false_get (d : dict V) k : mem d k = false <-> get d k = None.
Proof.
  unfold mem. destruct (get d k); split; congruence.
Qed.

Lemma mem_set_other (d : dict V) k k' v :
  k <> k' -> mem (set d k v) k' = mem d k'.
Proof. intros H. unfold mem. now rewrite get_set_other. Qed.

Lemma set_absent (d : dict V) k v :
  get d k = None -> set d k v = (d ++ [(k, v)])%list.
Proof.
  induction d as [|[k' v'] d IH]; simpl; auto.
  destruct (String.eqb k' k); [discriminate|].
  intros H. now rewrite IH.
Qed.

End DictFacts.

(** *** Loops *)

(** An invariant kept by the body is kept by the loop. *)
Lemma for_each_invariant {S X : Type} (P : S -> Prop)
    (body : S -> X -> result S) (l : list X) :
  (forall s x s', In x l -> P s -> body s x = Ok s' -> P s') ->
  forall s s', P s -> for_each body l s = Ok s' -> P s'.
Proof.
  induction l as [|x l IH]; simpl; intros Hbody s s' Hs Hrun.
  - now inversion Hrun; subst.
  - destruct (body s x) as [s1|e] eqn:E; simpl in Hrun; [|discriminate].
    apply (IH (fun s0 x0 s0' Hin => Hbody s0 x0 s0' (or_intror Hin)) s1 s');
      eauto.
Qed.

(** *** The key parser *)

Lemma rstrip_idem s : rstrip (rstrip s) = rstrip s.
Proof.
  induction s as [|c s IH]; simpl; auto.
  destruct (rstrip s) as [|c' r] eqn:E.
  - destruct (isspace c) eqn:Ec; simpl; auto. now rewrite Ec.
  - change (rstrip (String c (String c' r))) with
      (match rstrip (String c' r) with
       | EmptyString => if isspace c then EmptyString else String c EmptyString
       | String a b => String c (String a b)
       end).
    now rewrite IH.
Qed.

(** What [plus_greedy] returns, its continuation returned. *)
Lemma plus_greedy_result {R : Type} cls (k : string -> option R) s x :
  plus_greedy cls k s = Some x -> exists rest, k rest = Some x.
Proof.
  induction s as [|c s IH]; simpl; [discriminate|].
  destruct (cls c); [|discriminate].
  destruct (plus_greedy cls k s) as [y|] eqn:E.
  - intros [= <-]. auto.
  - eauto.
Qed.

(** The look-aheads of the patterns hold no group. *)
Lemma close_semi_keeps_group g s x :
  rmatch close_semi (option string) g s (fun g' _ => Some g') = Some x -> x = g.
Proof.
  unfold close_semi. cbn [rmatch].
  destruct s as [|c s]; [discriminate|].
  destruct (Ascii.eqb "]" c).
  - destruct s as [|c' s].
    + destruct (Ascii.eqb ";" c); now intros [= <-].
    + destruct (Ascii.eqb ";" c'); [now intros [= <-]|].
      destruct (Ascii.eqb ";" c); now intros [= <-].
  - destruct (Ascii.eqb ";" c); now intros [= <-].
Qed.

Lemma close_only_keeps_group g s x :
  rmatch close_only (option string) g s (fun g' _ => Some g') = Some x -> x = g.
Proof.
  unfold close_only. cbn [rmatch].
  destruct s as [|c s]; [now intros [= <-]|].
  destruct (Ascii.eqb "]" c); now intros [= <-].
Qed.

(** Group 1 is set in every match of a rank pattern, so [group1] never
    falls back on its default. *)
Lemma rank_re_group_set t la s m :
  la = close_semi \/ la = close_only ->
  search (rank_re t la) s = Some m -> exists g, m = Some g.
Proof.
  intros Hla.
  assert (Hhere : forall s0, match_here (rank_re t la) s0 = Some m ->
                    exists g, m = Some g).
  { intros s0. unfold match_here, rank_re. cbn [rmatch].
    assert (Hplus : forall g0 s1,
              plus_greedy word_or_space
                (fun rest =>
                   match rmatch la (option string)
                           (Some (consumed s1 rest)) rest
                           (fun g' _ => Some g') with
                   | Some g' => Some g'
                   | None => None
                   end) g0 = Some m -> exists g, m = Some g).
    { intros g0 s1 H. apply plus_greedy_result in H. destruct H as [rest H].
      destruct (rmatch la (option string) (Some (consumed s1 rest)) rest
                  (fun g' _ => Some g')) as [g'|] eqn:E; [|discriminate].
      inversion H; subst g'.
      destruct Hla as [-> | ->];
        [apply close_semi_keeps_group in E
        |apply close_only_keeps_group in E]; eauto. }
    destruct s0 as [|c0 s0]; [discriminate|].
    destruct (Ascii.eqb t c0); [|discriminate].
    destruct s0 as [|c1 s0]; [discriminate|].
    destruct (Ascii.eqb "_" c1); [|discriminate].
    destruct s0 as [|c2 s0]; [discriminate|].
    destruct (Ascii.eqb "_" c2); [|discriminate].
    destruct s0 as [|c3 s0]; [discriminate|].
    destruct (Ascii.eqb "[" c3).
    - match goal with
      | |- match ?e with _ => _ end = _ -> _ => destruct e eqn:E1
      end.
      + intros [= <-]. eapply Hplus; eauto.
      + apply Hplus.
    - apply Hplus. }
  induction s as [|c s IH]; cbn [search].
  - destruct (match_here (rank_re t la) "") as [g0|] eqn:E;
      intros H; inversion H; subst g0. exact (Hhere _ E).
  - destruct (match_here (rank_re t la) (String c s)) as [g0|] eqn:E.
    + intros H; inversion H; subst g0. exact (Hhere _ E).
    + exact IH.
Qed.

(** Post-processing the groups commutes with the loop. *)
Lemma key_items_post (post : string -> string) reg_exs taxa :
  key_items post reg_exs taxa = map post (key_items (fun g => g) reg_exs taxa).
Proof.
  induction reg_exs as [|r rs IH]; simpl; auto.
  destruct (search r taxa); simpl; auto. now rewrite IH.
Qed.

(** The loop never yields more labels than patterns tried. *)
Lemma key_items_length post reg_exs taxa :
  length (key_items post reg_exs taxa) <= length reg_exs.
Proof.
  induction reg_exs as [|r rs IH]; simpl; auto.
  destruct (search r taxa); simpl; lia.
Qed.

(** A pattern that fails cuts the loop: the later patterns are not used. *)
Lemma key_items_cut post reg_exs taxa i reg_ex :
  nth_error reg_exs i = Some reg_ex ->
  search reg_ex taxa = None ->
  key_items post reg_exs taxa = key_items post (firstn i reg_exs) taxa.
Proof.
  revert i. induction reg_exs as [|r rs IH]; intros [|i] Hn Hs; simpl in *;
    try discriminate.
  - inversion Hn; subst. now rewrite Hs.
  - destruct (search r taxa); auto. f_equal. eauto.
Qed.

(** Every label of the result is group 1 of the match of its own pattern,
    and all the patterns before it matched. *)
Lemma key_items_nth post reg_exs taxa j label :
  nth_error (key_items post reg_exs taxa) j = Some label ->
  exists reg_ex m,
    nth_error reg_exs j = Some reg_ex
    /\ search reg_ex taxa = Some m
    /\ label = post (group1 m)
    /\ forall i r, i < j -> nth_error reg_exs i = Some r ->
         search r taxa <> None.
Proof.
  revert j. induction reg_exs as [|r rs IH]; intros j Hj; simpl in *.
  - destruct j; discriminate.
  - destruct (search r taxa) as [m|] eqn:E.
    + destruct j as [|j]; simpl in *.
      * inversion Hj; subst. exists r, m. repeat split; auto. intros; lia.
      * destruct (IH _ Hj) as (r' & m' & H1 & H2 & H3 & H4).
        exists r', m'. repeat split; auto.
        intros [|i] r0 Hi Hr0; simpl in Hr0.
        -- inversion Hr0; subst. congruence.
        -- apply (H4 i); auto. lia.
    + destruct j; discriminate.
Qed.

(** *** Strings *)

Lemma append_nil_r (s : string) : s ++ "" = s.
Proof. induction s; simpl; congruence. Qed.

Lemma append_assoc (a b c : string) : (a ++ b) ++ c = a ++ b ++ c.
Proof. induction a; simpl; congruence. Qed.

Lemma length_append (a b : string) :
  String.length (a ++ b) = String.length a + String.length b.
Proof. induction a; simpl; congruence. Qed.

(** The key of a prefix of the labels is a prefix of the key. *)
Lemma join_firstn_prefix sep (items : list string) :
  forall k, exists rest, join sep items = join sep (firstn k items) ++ rest.
Proof.
  unfold join.
  induction items as [|x xs IH]; intros k.
  - exists "". now destruct k.
  - destruct k as [|k]; [now exists (String.concat sep (x :: xs))|].
    destruct xs as [|y ys].
    + exists "". destruct k; simpl; now rewrite append_nil_r.
    + destruct (IH k) as [rest Hrest].
      destruct k as [|k].
      * exists (sep ++ String.concat sep (y :: ys)). reflexivity.
      * exists rest.
        change (String.concat sep (x :: y :: ys))
          with (x ++ sep ++ String.concat sep (y :: ys)).
        change (firstn (S (S k)) (x :: y :: ys))
          with (x :: y :: firstn k ys).
        change (String.concat sep (x :: y :: firstn k ys))
          with (x ++ sep ++ String.concat sep (firstn (S k) (y :: ys))).
        rewrite Hrest. now rewrite !append_assoc.
Qed.

Lemma join_firstn_length sep (items : list string) k :
  String.length (join sep (firstn k items)) <= String.length (join sep items).
Proof.
  destruct (join_firstn_prefix sep items k) as [rest ->].
  rewrite length_append. lia.
Qed.

(** *** The shortening loop *)

Lemma rev_seq_1 m : rev (seq 1 m) = map (fun j => S m - j) (seq 1 m).
Proof.
  induction m as [|m IH]; [reflexivity|].
  transitivity (S m :: map (fun j => S m - j) (seq 1 m)).
  - rewrite seq_S, rev_app_distr, IH. reflexivity.
  - change (seq 1 (S m)) with (1 :: seq 2 m).
    rewrite <- (seq_shift m 1). cbn [map]. rewrite map_map.
    reflexivity.
Qed.

Lemma slice_to_drop {X : Type} (l : list X) j :
  1 <= j <= length l -> slice_to l (- Z.of_nat j) = firstn (length l - j) l.
Proof.
  intros H. unfold slice_to.
  destruct (Z.ltb_spec (- Z.of_nat j) 0); [|lia].
  f_equal. lia.
Qed.

Lemma shorten_range_spec (items : list string) :
  shorten_range items
  = map (fun j => (- Z.of_nat j)%Z) (seq 1 (length items - 1)).
Proof.
  unfold shorten_range, range_down.
  replace (Z.to_nat (-1 - -1 * Z.of_nat (length items)))
    with (length items - 1) by lia.
  rewrite <- seq_shift, map_map. apply map_ext. intros a. lia.
Qed.

(** The keys the loop tests, in the order it tests them: one trailing label
    less at each step, from n-1 labels down to one. *)
Lemma tested_keys (items : list string) :
  map (fun i => join ";" (slice_to items i)) (shorten_range items)
  = shortenings items.
Proof.
  unfold shortenings. rewrite shorten_range_spec, rev_seq_1, !map_map.
  apply map_ext_in. intros j Hj. apply in_seq in Hj.
  rewrite slice_to_drop by lia. do 2 f_equal. lia.
Qed.

Lemma first_short_find {A : Arith} (ref : dict num) items indices :
  option_map snd (first_short ref items indices)
  = find (mem ref) (map (fun i => join ";" (slice_to items i)) indices).
Proof.
  induction indices as [|i rest IH]; simpl; auto.
  destruct (mem ref (join ";" (slice_to items i))); auto.
Qed.

Lemma resolution_in_ref {V : Type} (ref : dict V) items key :
  resolution ref items = Some key -> mem ref key = true.
Proof.
  unfold resolution. destruct (mem ref (join ";" items)) eqn:E.
  - now intros [= <-].
  - intros H. now apply find_some in H.
Qed.

(** A resolved key joins the first [k] labels, for some [k] from 1 to n; no
    longer prefix is in the table. *)
Lemma resolution_prefix {V : Type} (ref : dict V) items key :
  items <> [] ->
  resolution ref items = Some key ->
  exists k, 1 <= k <= length items
    /\ key = join ";" (firstn k items)
    /\ forall k', k < k' <= length items ->
         mem ref (join ";" (firstn k' items)) = false.
Proof.
  intros Hne. unfold resolution.
  destruct (mem ref (join ";" items)) eqn:E.
  - intros [= <-]. exists (length items). rewrite firstn_all.
    destruct items; [congruence|]. simpl. repeat split; try lia.
  - unfold shortenings.
    intros Hfind.
    set (n := length items) in *.
    assert (Hfull : forall k', n - 1 < k' <= n ->
              mem ref (join ";" (firstn k' items)) = false).
    { intros k' Hk'. replace k' with n by lia. unfold n.
      now rewrite firstn_all. }
    revert Hfind Hfull. generalize (n - 1) as m.
    induction m as [|m IH]; intros Hfind Hfull; [discriminate|].
    rewrite seq_S, rev_app_distr in Hfind.
    cbn [rev app map find Nat.add] in Hfind.
    destruct (mem ref (join ";" (firstn (S m) items))) eqn:Em.
    + inversion Hfind; subst key. exists (S m).
      repeat split; auto; try lia.
      destruct (Nat.le_gt_cases (S m) n) as [Hle|Hgt]; auto.
      exfalso. rewrite firstn_all2 in Em by (fold n; lia).
      congruence.
    + apply IH; auto. intros k' Hk'.
      destruct (Nat.eq_dec k' (S m)) as [->|Hne']; auto.
      apply Hfull. lia.
Qed.

(** *** The input reconciler *)

Section Reconciler.

Context {A : Arith}.
Variable ref : dict num.

Local Abbreviation sound := (sound_for ref).

Lemma map_taxon_seen m taxa_a :
  mem m taxa_a = true -> map_taxon ref m taxa_a = Ok m.
Proof. intros H. unfold map_taxon. now rewrite H. Qed.

Lemma map_taxon_unparsed m taxa_a :
  mem m taxa_a = false ->
  input_key_items taxa_a = [] ->
  map_taxon ref m taxa_a = Raise (RuntimeError "Key conversion was not possible.").
Proof. intros H E. unfold map_taxon. now rewrite H, E. Qed.

Lemma map_taxon_fresh m taxa_a :
  mem m taxa_a = false ->
  input_key_items taxa_a <> [] ->
  map_taxon ref m taxa_a
  = Ok match resolution ref (input_key_items taxa_a) with
       | Some key => set m taxa_a key
       | None => m
       end.
Proof.
  intros H Hne. unfold map_taxon, resolution. rewrite H.
  destruct (input_key_items taxa_a) as [|x xs] eqn:E; [congruence|].
  destruct (mem ref (join ";" (x :: xs))); cbn [negb]; auto.
  rewrite <- tested_keys, <- first_short_find.
  now destruct (first_short ref (x :: xs) (shorten_range (x :: xs)))
    as [[i key]|].
Qed.

(** The only exception of the loop body is the [RuntimeError]. *)
Lemma map_taxon_raises m taxa_a e :
  map_taxon ref m taxa_a = Raise e ->
  e = RuntimeError "Key conversion was not possible."
  /\ input_key_items taxa_a = [].
Proof.
  destruct (mem m taxa_a) eqn:Hm.
  - rewrite map_taxon_seen by auto. discriminate.
  - destruct (input_key_items taxa_a) as [|x xs] eqn:E.
    + rewrite map_taxon_unparsed by auto. now intros [= <-].
    + rewrite map_taxon_fresh by congruence. discriminate.
Qed.

Lemma sound_step m taxa_a m' :
  sound m -> map_taxon ref m taxa_a = Ok m' -> sound m'.
Proof.
  intros Hs Hstep.
  destruct (mem m taxa_a) eqn:Hm.
  - rewrite map_taxon_seen in Hstep by auto. now inversion Hstep; subst.
  - destruct (input_key_items taxa_a) as [|x xs] eqn:E.
    + rewrite map_taxon_unparsed in Hstep by auto. discriminate.
    + rewrite map_taxon_fresh in Hstep by congruence.
      inversion Hstep; subst m'; clear Hstep.
      destruct (resolution ref (input_key_items taxa_a)) as [key|] eqn:R; auto.
      intros t k Hget.
      destruct (string_dec taxa_a t) as [->|Hne].
      * rewrite get_set_same in Hget. inversion Hget; subst.
        split; congruence.
      * rewrite get_set_other in Hget by auto. auto.
Qed.

(** What the finished loop holds for every taxon. *)
Lemma curate_input_get index :
  forall m0 m,
    sound m0 ->
    for_each (map_taxon ref) index m0 = Ok m ->
    forall t,
      get m t = match get m0 t with
                | Some k => Some k
                | None =>
                    if in_dec string_dec t index
                    then resolution ref (input_key_items t)
                    else None
                end.
Proof.
  induction index as [|x rest IH]; intros m0 m Hs Hrun t.
  - simpl in Hrun. inversion Hrun; subst. now destruct (get m t).
  - simpl in Hrun.
    destruct (map_taxon ref m0 x) as [m1|e] eqn:Hstep; [|discriminate].
    simpl in Hrun.
    pose proof (sound_step _ _ _ Hs Hstep) as Hs1.
    rewrite (IH m1 m Hs1 Hrun t).
    destruct (mem m0 x) eqn:Hm.
    + rewrite map_taxon_seen in Hstep by auto. inversion Hstep; subst m1.
      destruct (get m0 t) eqn:Hg; auto.
      assert (x <> t).
      { intros ->. apply mem_get in Hm. destruct Hm. congruence. }
      destruct (in_dec string_dec t rest), (in_dec string_dec t (x :: rest));
        simpl in *; tauto.
    + apply mem_false_get in Hm.
      destruct (input_key_items x) as [|y ys] eqn:E.
      * rewrite map_taxon_unparsed in Hstep by (try apply mem_false_get; auto).
        discriminate.
      * rewrite map_taxon_fresh in Hstep
          by (try apply mem_false_get; congruence).
        inversion Hstep; subst m1; clear Hstep.
        destruct (string_dec x t) as [->|Hne].
        -- rewrite Hm.
           destruct (in_dec string_dec t (t :: rest)) as [_|Hn];
             [|exfalso; apply Hn; now left].
           destruct (resolution ref (input_key_items t)) as [key|] eqn:R.
           ++ now rewrite get_set_same.
           ++ rewrite Hm. now destruct (in_dec string_dec t rest).
        -- assert (Hsame : get match resolution ref (input_key_items x) with
                               | Some key => set m0 x key
                               | None => m0
                               end t = get m0 t).
           { destruct (resolution ref (input_key_items x)); auto.
             now apply get_set_other. }
           rewrite Hsame. destruct (get m0 t); auto.
           destruct (in_dec string_dec t rest), (in_dec string_dec t (x :: rest));
             simpl in *; tauto.
Qed.

Lemma sound_empty : sound [].
Proof. intros t k H. discriminate. Qed.

(** The map of a finished run: the taxa of the index, each with its
    resolution when it has one. *)
Lemma curate_input_map index m t :
  _curate_input ref index = Ok m ->
  get m t = if in_dec string_dec t index
            then resolution ref (input_key_items t)
            else None.
Proof.
  intros Hrun. unfold _curate_input in Hrun.
  now rewrite (curate_input_get index [] m sound_empty Hrun t).
Qed.

Lemma curate_input_sound index m :
  _curate_input ref index = Ok m -> sound m.
Proof.
  unfold _curate_input.
  apply (for_each_invariant sound); [|apply sound_empty].
  intros s x s' _. apply sound_step.
Qed.

(** An unparseable taxon anywhere in the index stops the loop. *)
Lemma curate_input_unparsed index :
  forall m0 taxa_a,
    sound m0 ->
    In taxa_a index ->
    input_key_items taxa_a = [] ->
    for_each (map_taxon ref) index m0
    = Raise (RuntimeError "Key conversion was not possible.").
Proof.
  induction index as [|x rest IH]; intros m0 taxa_a Hs Hin Hbad; [easy|].
  simpl. destruct (map_taxon ref m0 x) as [m1|e] eqn:Hstep; simpl.
  - destruct Hin as [->|Hin].
    + exfalso. destruct (mem m0 taxa_a) eqn:Hm.
      * apply mem_get in Hm. destruct Hm as [k Hk].
        now destruct (Hs _ _ Hk).
      * rewrite map_taxon_unparsed in Hstep by auto. discriminate.
    + apply (IH m1 taxa_a); auto. eapply sound_step; eauto.
  - apply map_taxon_raises in Hstep. now destruct Hstep as [-> _].
Qed.

End Reconciler.

(** *** Claims on the key parser and the reconciler *)

(** C5. The parser is prefix-monotonic: the patterns are applied in the
    order of [_generate_taxa_reg_exs] and the loop is left at the first one
    that does not match. When the pattern of rank [i] fails, the result is
    the one computed from the patterns before [i] alone, so it has at most
    [i] labels; and the label at position [j] of any result is group 1 of
    the pattern of rank [j], all earlier patterns having matched. Whether a
    later tag occurs in the text plays no part. *)
Theorem parser_prefix_monotonic (taxa : string) (i : nat) (reg_ex : regex) :
  nth_error _generate_taxa_reg_exs i = Some reg_ex ->
  search reg_ex taxa = None ->
  (forall post,
     key_items post _generate_taxa_reg_exs taxa
     = key_items post (firstn i _generate_taxa_reg_exs) taxa)
  /\ length (db_key_items taxa) <= i
  /\ length (input_key_items taxa) <= i
  /\ (forall post j label,
        nth_error (key_items post _generate_taxa_reg_exs taxa) j = Some label ->
        j < i
        /\ exists r m,
             nth_error _generate_taxa_reg_exs j = Some r
             /\ search r taxa = Some m
             /\ label = post (group1 m)).
Proof.
  intros Hi Hfail.
  assert (Hcut : forall post,
             key_items post _generate_taxa_reg_exs taxa
             = key_items post (firstn i _generate_taxa_reg_exs) taxa).
  { intros post. eapply key_items_cut; eauto. }
  assert (Hlen : forall post,
             length (key_items post _generate_taxa_reg_exs taxa) <= i).
  { intros post. rewrite Hcut.
    etransitivity; [apply key_items_length|]. apply firstn_le_length. }
  repeat split; auto; try apply Hlen.
  - apply Nat.lt_le_trans
      with (m := length (key_items post _generate_taxa_reg_exs taxa));
      [|apply Hlen].
    apply nth_error_Some. congruence.
  - destruct (key_items_nth _ _ _ _ _ H) as (r & m & H1 & H2 & H3 & _).
    eauto.
Qed.

(** The phylum is missing from [k__A;c__C;]: the class tag matches, and
    the key stops at the kingdom. *)
Lemma parser_prefix_monotonic_witness :
  search (rank_re "c" close_semi) "k__A;c__C;" = Some (Some "C")
  /\ db_key_items "k__A;c__C;" = ["A"]
  /\ length (db_key_items "k__A;c__C;") <= 1.
Proof.
  split; [reflexivity|]. split; [reflexivity|].
  apply (parser_prefix_monotonic "k__A;c__C;" 1 (rank_re "p" close_semi));
    reflexivity.
Defined.

(** C6, as the code has it. The labels of an input taxon are those of the
    reference parser with the trailing whitespace removed: [rstrip] leaves
    each of them unchanged. Leading whitespace stays. *)
Theorem input_labels_rstripped (taxa : string) :
  input_key_items taxa = map rstrip (db_key_items taxa)
  /\ Forall (fun label => rstrip label = label) (input_key_items taxa).
Proof.
  assert (H : input_key_items taxa = map rstrip (db_key_items taxa))
    by apply key_items_post.
  split; auto. rewrite H. apply Forall_forall. intros label Hin.
  apply in_map_iff in Hin. destruct Hin as (g & <- & _).
  apply rstrip_idem.
Qed.

(** C6 as stated fails: whitespace after the tag stays in the label, for
    the reconciler and the curator alike, and changes the key. *)
Lemma labels_not_trimmed :
  input_key_items "k__ A;" = [" A"]
  /\ strip " A" <> " A"
  /\ join ";" (input_key_items "k__ A;") <> join ";" (input_key_items "k__A;")
  /\ db_key_items "k__ A;" = [" A"]
  /\ join ";" (db_key_items "k__ A;") <> join ";" (db_key_items "k__A;").
Proof. repeat split; try reflexivity; discriminate. Qed.

(** C1. In a finished reconciliation every mapped taxon holds the key of a
    prefix of its own labels, never a longer key. For a taxon whose full
    key is not in the table, the keys tested are those of the prefixes of
    n-1, n-2, ..., 1 labels in this order, the taxon is mapped to the first
    of them the table has (and left unmapped when it has none), so no
    longer prefix than the one chosen is in the table. *)
Theorem reconciler_longest_prefix {A : Arith} (ref : dict num)
    (index : list string) (m : dict string) :
  _curate_input ref index = Ok m ->
  (forall t key, get m t = Some key ->
     exists k, 1 <= k <= length (input_key_items t)
       /\ key = join ";" (firstn k (input_key_items t))
       /\ String.length key <= String.length (join ";" (input_key_items t)))
  /\ (forall taxa_a, In taxa_a index ->
        mem ref (join ";" (input_key_items taxa_a)) = false ->
        let items := input_key_items taxa_a in
        map (fun i => join ";" (slice_to items i)) (shorten_range items)
        = map (fun k => join ";" (firstn k items))
            (rev (seq 1 (length items - 1)))
        /\ get m taxa_a = find (mem ref) (shortenings items)
        /\ forall key, get m taxa_a = Some key ->
             exists k, 1 <= k < length items
               /\ key = join ";" (firstn k items)
               /\ mem ref key = true
               /\ forall k', k < k' <= length items ->
                    mem ref (join ";" (firstn k' items)) = false).
Proof.
  intros Hrun. pose proof (curate_input_sound ref index m Hrun) as Hs.
  split.
  - intros t key Hget. destruct (Hs t key Hget) as [Hres Hne].
    destruct (resolution_prefix ref _ key Hne Hres) as (k & Hk & -> & _).
    exists k. repeat split; try lia. apply join_firstn_length.
  - intros taxa_a Hin Habs items. subst items.
    split; [apply tested_keys|].
    assert (Hget : get m taxa_a
                   = find (mem ref) (shortenings (input_key_items taxa_a))).
    { rewrite (curate_input_map ref index m taxa_a Hrun).
      destruct (in_dec string_dec taxa_a index); [|contradiction].
      unfold resolution. now rewrite Habs. }
    split; auto. intros key Hkey.
    destruct (Hs taxa_a key Hkey) as [Hres Hne].
    pose proof (resolution_in_ref ref _ key Hres) as Hmem.
    destruct (resolution_prefix ref _ key Hne Hres) as (k & Hk & -> & Hlonger).
    exists k. repeat split; auto; try lia.
    destruct (Nat.eq_dec k (length (input_key_items taxa_a))) as [->|]; [|lia].
    rewrite firstn_all in Hmem. congruence.
Qed.

(** [A;B;C;D] and [A;B;C] are missing and [A;B] is found first, though
    [A] is in the table too. *)
Lemma reconciler_longest_prefix_witness :
  shortenings (input_key_items taxon_ABCD) = ["A;B;C"; "A;B"; "A"]
  /\ get [(taxon_ABCD, "A;B")] taxon_ABCD
     = find (mem ref_AB) (shortenings (input_key_items taxon_ABCD)).
Proof.
  split; [reflexivity|].
  apply (proj2 (reconciler_longest_prefix (A := f64) ref_AB [taxon_ABCD]
                  [(taxon_ABCD, "A;B")] eq_refl) taxon_ABCD);
    [now left | reflexivity].
Defined.

(** With a sound map the divisor of every row is found, and it is the table's
    value of the mapped key, or the grand total for an unmapped name. *)
Lemma divisor_spec {A : Arith} (ref : dict num) (m : dict string) g name d :
  divisor ref m g name = Ok d ->
  match get m name with
  | Some key => get ref key = Some d
  | None => d = g
  end.
Proof.
  unfold divisor, mem, lookup.
  destruct (get m name) as [key|]; simpl.
  - destruct (get ref key); now intros [= <-].
  - now intros [= <-].
Qed.

Lemma sound_divisor {A : Arith} (ref : dict num) (m : dict string) :
  sound_for ref m ->
  forall g name, exists d, divisor ref m g name = Ok d.
Proof.
  intros Hs g name. unfold divisor, mem, lookup.
  destruct (get m name) as [key|] eqn:Hget; simpl; eauto.
  destruct (Hs name key Hget) as [Hres _].
  apply resolution_in_ref, mem_get in Hres. destruct Hres as [v ->]. eauto.
Qed.

(** C10. Every key stored in the map of a finished reconciliation is a key
    of the reference table, so the divisor of every row is found. *)
Theorem map_values_in_ref {A : Arith} (ref : dict num) (index : list string)
    (m : dict string) :
  _curate_input ref index = Ok m ->
  (forall name key, get m name = Some key ->
     mem ref key = true /\ exists v, lookup ref key = Ok v)
  /\ forall grand_total name, exists d, divisor ref m grand_total name = Ok d.
Proof.
  intros Hrun. pose proof (curate_input_sound ref index m Hrun) as Hs.
  assert (Hin : forall name key, get m name = Some key ->
            mem ref key = true /\ exists v, lookup ref key = Ok v).
  { intros name key Hget. destruct (Hs name key Hget) as [Hres _].
    pose proof (resolution_in_ref ref _ key Hres) as Hmem.
    split; auto. apply mem_get in Hmem. destruct Hmem as [v Hv].
    exists v. unfold lookup. now rewrite Hv. }
  split; auto. now apply sound_divisor.
Qed.

Lemma map_values_in_ref_witness :
  mem ref_AB "A;B" = true /\ exists v, lookup ref_AB "A;B" = Ok v.
Proof.
  apply (proj1 (map_values_in_ref (A := f64) ref_AB [taxon_ABCD]
                  [(taxon_ABCD, "A;B")] eq_refl) taxon_ABCD).
  reflexivity.
Defined.

(** C7. A taxon of the index with no label at all makes the reconciliation
    raise its [RuntimeError], whatever the reference table and the other
    rows are; the program then ends in an exception and writes nothing. *)
Theorem unparseable_taxon_is_fatal {A : Arith} (db_lines : list string)
    (count_df : DataFrame A) (output_path taxa_a : string) :
  In taxa_a (index count_df) ->
  input_key_items taxa_a = [] ->
  (forall ref : dict num,
     _curate_input ref (index count_df)
     = Raise (RuntimeError "Key conversion was not possible."))
  /\ exists e, main db_lines count_df output_path = Raise e.
Proof.
  intros Hin Hbad.
  assert (Hre : forall ref : dict num,
            _curate_input ref (index count_df)
            = Raise (RuntimeError "Key conversion was not possible.")).
  { intros ref. unfold _curate_input.
    eapply curate_input_unparsed; eauto. apply sound_empty. }
  split; auto. unfold main.
  destruct (_curate_db db_lines) as [db|e]; simpl; eauto.
  rewrite Hre. simpl. eauto.
Qed.

Lemma unparseable_taxon_is_fatal_witness :
  input_key_items "Unassigned" = []
  /\ exists e, main db_one_record df_garbled "counts_out.tsv" = Raise e.
Proof.
  split; [reflexivity|].
  apply (unparseable_taxon_is_fatal db_one_record df_garbled "counts_out.tsv"
           "Unassigned"); [right; now left | reflexivity].
Defined.

(** *** The correction loop *)

Lemma nth_error_set_row {A : Arith} (rows : list (list num)) i row j :
  i < length rows ->
  nth_error (set_row rows i row) j
  = if Nat.eqb j i then Some row else nth_error rows j.
Proof.
  intros Hi. unfold set_row.
  assert (Hlen : length (firstn i rows) = i)
    by (rewrite length_firstn; lia).
  destruct (Nat.eqb_spec j i) as [->|Hne].
  - rewrite nth_error_app2 by lia. rewrite Hlen, Nat.sub_diag. reflexivity.
  - destruct (Nat.lt_ge_cases j i) as [Hlt|Hge].
    + rewrite nth_error_app1 by lia. now rewrite nth_error_firstn, (proj2 (Nat.ltb_lt _ _) Hlt).
    + rewrite nth_error_app2 by lia. rewrite Hlen.
      destruct (j - i) as [|d] eqn:Ed; [lia|]. cbn [nth_error].
      rewrite nth_error_skipn. f_equal. lia.
Qed.

Lemma length_set_row {A : Arith} (rows : list (list num)) i row :
  i < length rows -> length (set_row rows i row) = length rows.
Proof.
  intros Hi. unfold set_row.
  rewrite length_app, length_firstn. cbn [length]. rewrite length_skipn. lia.
Qed.

Lemma skipn_nth_error {X : Type} (l : list X) k x :
  nth_error l k = Some x -> skipn k l = x :: skipn (S k) l.
Proof.
  revert k. induction l as [|y l IH]; intros [|k] H; simpl in *;
    try discriminate.
  - now inversion H.
  - now apply IH.
Qed.

Section Correction.

Context {A : Arith}.
Variables (ref : dict num) (input_taxa_map : dict string) (grand_total : num).
Variables (names OTUs : list string) (cells0 : list (list num)).

Hypothesis divisor_found :
  forall name, exists d, divisor ref input_taxa_map grand_total name = Ok d.
Hypothesis cells_len : length cells0 = length names.
Hypothesis OTUs_len : length OTUs = length names.

Local Abbreviation dv := (divisor_of ref input_taxa_map grand_total).

Local Abbreviation corrected_below := (rows_corrected_below dv names cells0).

Lemma correct_row_step k st :
  k < length names ->
  corrected_below k st ->
  exists st' name otu,
    nth_error names k = Some name
    /\ nth_error OTUs k = Some otu
    /\ correct_row ref input_taxa_map grand_total names OTUs st k = Ok st'
    /\ corrected_below (S k) st'
    /\ stdout st' = (stdout st ++ [correcting name otu])%list.
Proof.
  intros Hk [Hlen Hrows].
  destruct (nth_error names k) as [name|] eqn:En;
    [|apply nth_error_None in En; lia].
  destruct (nth_error OTUs k) as [otu|] eqn:Eo;
    [|apply nth_error_None in Eo; lia].
  destruct (nth_error cells0 k) as [row|] eqn:Ec;
    [|apply nth_error_None in Ec; lia].
  pose proof (Hrows k name row En Ec) as Hcur.
  rewrite Nat.ltb_irrefl in Hcur.
  destruct (divisor_found name) as [d Hd].
  exists {| df_cells := set_row (df_cells st) k (map (fun x => div x d) row);
            stdout := (stdout st ++ [correcting name otu])%list |}, name, otu.
  repeat split; auto.
  - unfold correct_row, getitem. rewrite En, Eo, Hcur. simpl.
    rewrite Hd. reflexivity.
  - simpl. rewrite length_set_row; lia.
  - simpl. intros i name' row' En' Ec'.
    rewrite nth_error_set_row by lia.
    destruct (Nat.eqb_spec i k) as [->|Hne].
    + rewrite En in En'. rewrite Ec in Ec'. inversion En'; inversion Ec'; subst.
      rewrite (proj2 (Nat.ltb_lt _ _) (Nat.lt_succ_diag_r k)).
      unfold divisor_of. now rewrite Hd.
    + rewrite (Hrows i name' row' En' Ec').
      destruct (Nat.ltb_spec i k), (Nat.ltb_spec i (S k)); auto; lia.
Qed.

Lemma correct_rows_loop n :
  forall k st,
    k + n = length names ->
    corrected_below k st ->
    exists st',
      for_each (correct_row ref input_taxa_map grand_total names OTUs)
        (seq k n) st = Ok st'
      /\ corrected_below (k + n) st'
      /\ stdout st'
         = (stdout st
              ++ map (fun p => correcting (fst p) (snd p))
                   (firstn n (skipn k (combine names OTUs))))%list.
Proof.
  induction n as [|n IH]; intros k st Hkn Hinv.
  - exists st. rewrite Nat.add_0_r. simpl. rewrite app_nil_r. auto.
  - destruct (correct_row_step k st ltac:(lia) Hinv)
      as (st1 & name & otu & En & Eo & Hstep & Hinv1 & Hout1).
    destruct (IH (S k) st1 ltac:(lia) Hinv1) as (st' & Hrun & Hinv' & Hout').
    exists st'. simpl. rewrite Hstep. simpl. rewrite Hrun.
    replace (k + S n) with (S k + n) by lia.
    repeat split; try apply Hinv'.
    rewrite Hout', Hout1, <- app_assoc. f_equal.
    assert (Hc : nth_error (combine names OTUs) k = Some (name, otu)).
    { clear - En Eo. revert OTUs k En Eo.
      induction names as [|a l IHl]; intros [|b o] [|k] En Eo; simpl in *;
        try discriminate.
      - now inversion En; inversion Eo.
      - now apply IHl. }
    rewrite (skipn_nth_error _ _ _ Hc). reflexivity.
Qed.

End Correction.

(** *** The whole of [normalise] *)

Lemma grand_average_nonempty {A : Arith} (ref : dict num) :
  ref <> [] ->
  grand_average ref = Ok (div (sum (values ref)) (of_nat (length ref))).
Proof. destruct ref; [congruence|reflexivity]. Qed.

Lemma div_row_nth {A : Arith} (row totals : list num) j :
  j < length row -> j < length totals ->
  nth j (div_row row totals) zero = div (nth j row zero) (nth j totals zero).
Proof.
  revert totals j. induction row as [|x row IH]; intros [|t totals] [|j];
    simpl; intros; try lia; auto.
  apply IH; lia.
Qed.

Lemma col_sums_nth {A : Arith} ncols (rows : list (list num)) j :
  j < ncols -> nth j (col_sums ncols rows) zero = column_sum (column rows j).
Proof.
  intros Hj. unfold col_sums.
  rewrite (nth_indep _ zero (column_sum (column rows (nth j (seq 0 ncols) 0)))).
  - rewrite (map_nth (fun j => column_sum (column rows j))), seq_nth; auto.
  - now rewrite length_map, length_seq.
Qed.

(** After the rescaling, a column holds its former cells divided by their
    total. *)
Lemma make_relative_column {A : Arith} ncols (rows : list (list num)) j :
  Forall (fun row => length row = ncols) rows ->
  j < ncols ->
  column (make_relative ncols rows) j
  = map (fun x => div x (column_sum (column rows j))) (column rows j).
Proof.
  intros Hrect Hj. unfold make_relative, column. rewrite !map_map.
  apply map_ext_in. intros row Hin.
  rewrite Forall_forall in Hrect. specialize (Hrect row Hin).
  rewrite div_row_nth.
  - now rewrite col_sums_nth.
  - lia.
  - unfold col_sums. now rewrite length_map, length_seq.
Qed.

Lemma normalise_run {A : Arith} (ref : dict num) (input_taxa_map : dict string)
    (count_df : DataFrame A) (output_path : string) :
  (forall g name, exists d, divisor ref input_taxa_map g name = Ok d) ->
  ref <> [] ->
  well_formed count_df ->
  let grand_total := div (sum (values ref)) (of_nat (length ref)) in
  exists st,
    correct_rows ref input_taxa_map grand_total count_df
      (print [] (String "010" "NORMALISING")) = Ok st
    /\ rows_corrected_below (divisor_of ref input_taxa_map grand_total)
         (index count_df) (cells count_df) (length (index count_df)) st
    /\ Forall (fun row => length row = length (columns count_df)) (df_cells st)
    /\ normalise ref input_taxa_map count_df output_path
       = Ok (progress_report (index count_df) (last_col count_df) output_path,
             {| index := index count_df;
                columns := columns count_df;
                cells := make_relative (length (columns count_df)) (df_cells st);
                last_col_name := last_col_name count_df;
                last_col := last_col count_df |}).
Proof.
  intros Hdiv Hne (Hcells & Hotus & Hrect) g.
  set (st0 := {| df_cells := cells count_df;
                 stdout := print [] (String "010" "NORMALISING") |}).
  assert (Hinv0 : rows_corrected_below (divisor_of ref input_taxa_map g)
                    (index count_df) (cells count_df) 0 st0).
  { split; [exact Hcells|]. intros i name row _ Hrow. exact Hrow. }
  destruct (correct_rows_loop ref input_taxa_map g (index count_df)
              (last_col count_df) (cells count_df) (Hdiv g) Hcells Hotus
              (length (index count_df)) 0 st0 eq_refl Hinv0)
    as (st & Hrun & Hinv & Hout).
  exists st. simpl in Hinv.
  assert (Hrect' : Forall (fun row => length row = length (columns count_df))
                     (df_cells st)).
  { apply Forall_forall. intros row Hin.
    destruct (In_nth_error _ _ Hin) as [i Hi].
    destruct Hinv as [Hlen Hrows].
    assert (Hlt : i < length (index count_df)).
    { rewrite <- Hlen. apply nth_error_Some. congruence. }
    destruct (nth_error (index count_df) i) as [name|] eqn:En;
      [|apply nth_error_None in En; lia].
    destruct (nth_error (cells count_df) i) as [row0|] eqn:Ec;
      [|apply nth_error_None in Ec; lia].
    rewrite (Hrows i name row0 En Ec) in Hi.
    rewrite (proj2 (Nat.ltb_lt _ _) Hlt) in Hi. inversion Hi; subst row.
    rewrite length_map. rewrite Forall_forall in Hrect.
    apply Hrect. eapply nth_error_In; eauto. }
  repeat split; auto; try apply Hinv.
  unfold normalise. rewrite (grand_average_nonempty ref Hne). simpl.
  unfold correct_rows. fold g. fold st0. rewrite Hrun. simpl.
  rewrite Hout. simpl.
  rewrite firstn_all2
    by (rewrite length_combine; lia).
  unfold progress_report, print. simpl.
  rewrite <- !app_assoc. reflexivity.
Qed.

(** *** Claims on the normaliser *)

(** C2. In a run of [normalise] over a non-empty reference table, the
    grand average is the sum of the table's values divided by their
    number, and the correction loop divides the cells of every row by one
    divisor: the table's value of the key the map records for the row's
    taxon when there is such an entry, and otherwise the grand average.
    The table [normalise] writes is the rescaling of the rows so divided. *)
Theorem row_divisor {A : Arith} (ref : dict num) (input_taxa_map : dict string)
    (count_df : DataFrame A) (output_path : string) :
  _curate_input ref (index count_df) = Ok input_taxa_map ->
  ref <> [] ->
  well_formed count_df ->
  let grand_total := div (sum (values ref)) (of_nat (length ref)) in
  grand_average ref = Ok grand_total
  /\ exists st,
       correct_rows ref input_taxa_map grand_total count_df
         (print [] (String "010" "NORMALISING")) = Ok st
       /\ (forall i name row,
             nth_error (index count_df) i = Some name ->
             nth_error (cells count_df) i = Some row ->
             exists d,
               nth_error (df_cells st) i = Some (map (fun x => div x d) row)
               /\ match get input_taxa_map name with
                  | Some key => get ref key = Some d
                  | None => d = grand_total
                  end)
       /\ exists out,
            normalise ref input_taxa_map count_df output_path
            = Ok (out,
                  {| index := index count_df;
                     columns := columns count_df;
                     cells := make_relative (length (columns count_df))
                                (df_cells st);
                     last_col_name := last_col_name count_df;
                     last_col := last_col count_df |}).
Proof.
  intros Hmap Hne Hwf g.
  pose proof (sound_divisor ref _ (curate_input_sound ref _ _ Hmap)) as Hdiv.
  split; [now apply grand_average_nonempty|].
  destruct (normalise_run ref input_taxa_map count_df output_path Hdiv Hne Hwf)
    as (st & Hrun & [Hlen Hrows] & _ & Hnorm).
  exists st. split; [exact Hrun|]. split; [|eauto].
  intros i name row En Ec.
  exists (divisor_of ref input_taxa_map g name).
  rewrite (Hrows i name row En Ec).
  assert (Hlt : i < length (index count_df))
    by (apply nth_error_Some; congruence).
  rewrite (proj2 (Nat.ltb_lt _ _) Hlt). split; auto.
  unfold divisor_of. destruct (Hdiv g name) as [d Hd]. rewrite Hd.
  now apply divisor_spec.
Qed.

(** The first row of [df_zero_column] is divided by the 2.0 of [A;B], the
    second by the average 1.5. *)
Lemma row_divisor_witness :
  grand_average ref_AB = Ok 1.5%float
  /\ exists st,
       correct_rows ref_AB map_ABCD 1.5%float df_zero_column
         (print [] (String "010" "NORMALISING")) = Ok st
       /\ (forall i name row,
             nth_error (index df_zero_column) i = Some name ->
             nth_error (cells df_zero_column) i = Some row ->
             exists d,
               nth_error (df_cells st) i
               = Some (map (fun x => @div f64 x d) row)
               /\ match get map_ABCD name with
                  | Some key => get ref_AB key = Some d
                  | None => d = 1.5%float
                  end)
       /\ exists out,
            normalise ref_AB map_ABCD df_zero_column "counts_out.tsv"
            = Ok (out,
                  {| index := index df_zero_column;
                     columns := columns df_zero_column;
                     cells := make_relative (length (columns df_zero_column))
                                (df_cells st);
                     last_col_name := last_col_name df_zero_column;
                     last_col := last_col df_zero_column |}).
Proof.
  apply (row_divisor (A := f64) ref_AB map_ABCD df_zero_column
           "counts_out.tsv").
  - reflexivity.
  - discriminate.
  - repeat split; repeat constructor.
Defined.

(** C8, as the code has it. [normalise] does not look at the column
    totals: whenever the reconciliation succeeded on a non-empty table it
    returns normally, prints the same progress lines whatever the counts
    are, and writes every cell divided by the total of its column; for a
    column whose total is zero that is the cell divided by zero. *)
Theorem zero_total_not_detected {A : Arith} (ref : dict num)
    (input_taxa_map : dict string) (count_df : DataFrame A)
    (output_path : string) :
  _curate_input ref (index count_df) = Ok input_taxa_map ->
  ref <> [] ->
  well_formed count_df ->
  exists st written,
    correct_rows ref input_taxa_map
      (div (sum (values ref)) (of_nat (length ref))) count_df
      (print [] (String "010" "NORMALISING")) = Ok st
    /\ normalise ref input_taxa_map count_df output_path
       = Ok (progress_report (index count_df) (last_col count_df) output_path,
             written)
    /\ (forall j, j < length (columns count_df) ->
          column (cells written) j
          = map (fun x => div x (column_sum (column (df_cells st) j)))
              (column (df_cells st) j))
    /\ (forall j, j < length (columns count_df) ->
          column_sum (column (df_cells st) j) = zero ->
          column (cells written) j
          = map (fun x => div x zero) (column (df_cells st) j)).
Proof.
  intros Hmap Hne Hwf.
  pose proof (sound_divisor ref _ (curate_input_sound ref _ _ Hmap)) as Hdiv.
  destruct (normalise_run ref input_taxa_map count_df output_path Hdiv Hne Hwf)
    as (st & Hrun & _ & Hrect & Hnorm).
  eexists st, _. split; [exact Hrun|]. split; [exact Hnorm|]. simpl.
  split.
  - intros j Hj. now apply make_relative_column.
  - intros j Hj Hzero. rewrite make_relative_column by auto.
    now rewrite Hzero.
Qed.

Lemma zero_total_not_detected_witness :
  exists st written,
    correct_rows ref_AB map_ABCD
      (@div f64 (sum (values ref_AB)) (of_nat (length ref_AB))) df_zero_column
      (print [] (String "010" "NORMALISING")) = Ok st
    /\ normalise ref_AB map_ABCD df_zero_column "counts_out.tsv"
       = Ok (progress_report (index df_zero_column) (last_col df_zero_column)
               "counts_out.tsv", written)
    /\ (forall j, j < length (columns df_zero_column) ->
          column (cells written) j
          = map (fun x => div x (column_sum (column (df_cells st) j)))
              (column (df_cells st) j))
    /\ (forall j, j < length (columns df_zero_column) ->
          column_sum (column (df_cells st) j) = zero ->
          column (cells written) j
          = map (fun x => div x zero) (column (df_cells st) j)).
Proof.
  apply (zero_total_not_detected (A := f64) ref_AB map_ABCD df_zero_column).
  - reflexivity.
  - discriminate.
  - repeat split; repeat constructor.
Defined.

(** C8 as stated fails: the second sample of [df_zero_column] sums to
    zero after the row corrections; the run ends normally, prints the usual
    lines and writes NaN in both cells of that column. *)
Lemma zero_column_written_as_nan :
  (st <- correct_rows ref_AB map_ABCD 1.5%float df_zero_column
           (print [] (String "010" "NORMALISING")) ;;
   Ok (@column_sum f64 (column (df_cells st) 1)))
  = Ok 0%float
  /\ (r <- normalise ref_AB map_ABCD df_zero_column "counts_out.tsv" ;;
      Ok (fst r, @column f64 (cells (snd r)) 1))
     = Ok (progress_report (index df_zero_column) (last_col df_zero_column)
             "counts_out.tsv",
           [PrimFloat.nan; PrimFloat.nan]).
Proof. split; reflexivity. Qed.

(** *** The reference curator *)

Lemma bind_Ok {X : Type} (m : result X) : (x <- m ;; Ok x) = m.
Proof. now destruct m. Qed.

Lemma keep_lines_skip {A : Arith} (ls rest : list string) :
  Forall (fun l => not_record l = true) ls ->
  keep_lines (ls ++ rest) = keep_lines rest.
Proof.
  induction 1 as [|l ls Hl _ IH]; auto.
  destruct l as [|c l]; [discriminate|]. simpl in *.
  rewrite IH. apply negb_true_iff in Hl. rewrite Hl. apply bind_Ok.
Qed.

Lemma keep_lines_record {A : Arith} (raw tail : string) (rest : list string) :
  prefix "k" raw = true ->
  keep_lines ((raw ++ tail)%string :: rest)
  = (kept <- keep_lines rest ;; Ok (rstrip (raw ++ tail) :: kept)).
Proof.
  destruct raw as [|c raw]; [discriminate|]. cbn [prefix].
  destruct (ascii_dec "k" c) as [<-|]; [|discriminate]. reflexivity.
Qed.

Lemma rstrip_app (s t : string) :
  rstrip t <> "" -> rstrip (s ++ t) = s ++ rstrip t.
Proof.
  intros Ht. induction s as [|c s IH]; auto.
  simpl. rewrite IH.
  destruct (s ++ rstrip t) as [|a b] eqn:E; auto.
  destruct s; simpl in E; [congruence|discriminate].
Qed.

Lemma split_field (raw rest : string) :
  no_tab raw = true ->
  split "009" (raw ++ String "009" rest) = raw :: split "009" rest.
Proof.
  induction raw as [|c raw IH]; simpl; auto.
  intros H. apply andb_true_iff in H. destruct H as [Hc Hraw].
  apply negb_true_iff in Hc. rewrite Hc, (IH Hraw). reflexivity.
Qed.

(** A key of the table keeps its value through the rest of the curation
    loop: among annotations of different text, the first one wins. *)
Lemma curate_keeps_first {A : Arith} (factors : dict num) (k_list : list string) :
  forall st st' key v,
    for_each (curate_key factors) k_list st = Ok st' ->
    get (taxa_to_rrna_copy_dict st) key = Some v ->
    get (taxa_to_rrna_copy_dict st') key = Some v.
Proof.
  intros st st' key v Hrun Hget. revert Hrun.
  apply (for_each_invariant
           (fun s => get (taxa_to_rrna_copy_dict s) key = Some v)); auto.
  clear. intros s raw s' _ Hs. unfold curate_key.
  destruct (db_key_items raw) as [|x xs]; [now intros [= <-]|].
  generalize (join ";" (x :: xs)) as k. intros k.
  destruct (mem (taxa_to_rrna_copy_dict s) k) eqn:Hm; cbn [negb].
  - now intros [= <-].
  - destruct (lookup factors raw) as [w|e]; cbn [bind]; [|discriminate].
    intros [= <-]. cbn [taxa_to_rrna_copy_dict]. rewrite get_set_other; auto.
    intros Heq. subst k. apply mem_false_get in Hm. congruence.
Qed.

(** The two branches of the curation loop. *)
Lemma curate_key_new {A : Arith} (factors : dict num) st raw v :
  db_key_items raw <> [] ->
  mem (taxa_to_rrna_copy_dict st) (join ";" (db_key_items raw)) = false ->
  get factors raw = Some v ->
  curate_key factors st raw
  = Ok {| taxa_to_rrna_copy_dict :=
            set (taxa_to_rrna_copy_dict st) (join ";" (db_key_items raw)) v;
          count_added := count_added st + 1;
          already_present_dict := already_present_dict st |}.
Proof.
  intros Hne Hm Hv. unfold curate_key, lookup.
  destruct (db_key_items raw) as [|x xs]; [congruence|].
  now rewrite Hm, Hv.
Qed.

Lemma curate_key_dup {A : Arith} (factors : dict num) st raw :
  db_key_items raw <> [] ->
  mem (taxa_to_rrna_copy_dict st) (join ";" (db_key_items raw)) = true ->
  curate_key factors st raw
  = Ok {| taxa_to_rrna_copy_dict := taxa_to_rrna_copy_dict st;
          count_added := count_added st;
          already_present_dict :=
            incr 1 (already_present_dict st) (join ";" (db_key_items raw)) |}.
Proof.
  intros Hne Hm. unfold curate_key.
  destruct (db_key_items raw) as [|x xs]; [congruence|].
  now rewrite Hm.
Qed.

(** C4, as the code has it. A reference file whose only two record lines
    differ in their text and yield the same key, with the values 3.0 and
    5.0 in this order, is curated to the single entry 3.0 for that key,
    and the count reported for the key is 2: the counter of a key starts
    at one, so it counts the first record too. *)
Theorem two_records_one_key {A : Arith} (pre mid post : list string)
    (raw1 raw2 : string) (items : list string) (v1 v2 : num) :
  Forall (fun l => not_record l = true) pre ->
  Forall (fun l => not_record l = true) mid ->
  Forall (fun l => not_record l = true) post ->
  prefix "k" raw1 = true -> prefix "k" raw2 = true ->
  no_tab raw1 = true -> no_tab raw2 = true ->
  raw1 <> raw2 ->
  db_key_items raw1 = items -> db_key_items raw2 = items -> items <> [] ->
  float "3.0" = Some v1 -> float "5.0" = Some v2 ->
  _curate_db
    (pre ++ (raw1 ++ tab ++ "3.0" ++ nl)%string
         :: mid ++ (raw2 ++ tab ++ "5.0" ++ nl)%string :: post)%list
  = Ok {| taxa_to_rrna_copy_dict := [(join ";" items, v1)];
          count_added := 1;
          already_present_dict := [(join ";" items, 2)] |}.
Proof.
  intros Hpre Hmid Hpost Hk1 Hk2 Ht1 Ht2 Hne H1 H2 Hitems Hv1 Hv2.
  unfold _curate_db.
  rewrite (keep_lines_skip pre _ Hpre), (keep_lines_record _ _ _ Hk1).
  rewrite (keep_lines_skip mid _ Hmid), (keep_lines_record _ _ _ Hk2).
  replace (keep_lines post) with (@Ok (list string) [])
    by (rewrite <- (app_nil_r post), (keep_lines_skip post [] Hpost);
        reflexivity).
  cbn [bind].
  rewrite (rstrip_app raw1 (tab ++ "3.0" ++ nl)) by (vm_compute; discriminate).
  rewrite (rstrip_app raw2 (tab ++ "5.0" ++ nl)) by (vm_compute; discriminate).
  change (rstrip (tab ++ "3.0" ++ nl)) with (String "009" "3.0").
  change (rstrip (tab ++ "5.0" ++ nl)) with (String "009" "5.0").
  unfold two_d_list. cbn [map]. rewrite !split_field by assumption.
  change (split "009" "3.0") with ["3.0"].
  change (split "009" "5.0") with ["5.0"].
  cbn [firstn for_each read_factor getitem nth_error bind].
  unfold to_float. rewrite Hv1, Hv2. cbn [bind set].
  apply String.eqb_neq in Hne. rewrite Hne.
  cbn [keys map fst for_each].
  rewrite (curate_key_new _ db_init raw1 v1) by
    (rewrite ?H1; auto; cbn [get]; now rewrite String.eqb_refl).
  cbn [bind].
  rewrite curate_key_dup by
    (rewrite ?H2; auto; rewrite H1; cbn [taxa_to_rrna_copy_dict db_init set];
     unfold mem; cbn [get]; now rewrite String.eqb_refl).
  rewrite H1, H2. reflexivity.
Qed.

Lemma two_records_one_key_witness :
  _curate_db db_two_spellings
  = Ok (@Build_db_state f64 [("A;B", 3%float)] 1 [("A;B", 2)]).
Proof.
  apply (two_records_one_key (A := f64)
           ["# taxonomy" ++ tab ++ "copies" ++ nl] [] [nl]
           "k__A;p__B;" "k__A; p__B;" ["A"; "B"] 3%float 5%float);
    try reflexivity; try discriminate; repeat constructor.
Defined.

(** C4 as stated fails: for the two records of [db_two_spellings] the key
    [A;B] is reported with the count 2, not 1. *)
Lemma duplicate_count_is_two :
  (st <- _curate_db (A := f64) db_two_spellings ;;
   Ok (get (taxa_to_rrna_copy_dict st) "A;B",
       get (already_present_dict st) "A;B"))
  = Ok (Some 3%float, Some 2)
  /\ Some 2 <> Some 1.
Proof. split; [reflexivity|discriminate]. Qed.

(** C3 at the failing input: when the same line occurs twice the staging
    dictionary keeps one entry with the later value, so the table holds
    5.0, the value of the second record, and no duplicate is counted. *)
Theorem repeated_line_keeps_last_value :
  _curate_db db_repeated_line
  = Ok (@Build_db_state f64 [("A;B", 5%float)] 1 []).
Proof. reflexivity. Qed.

(** *** The rank patterns, read without backtracking *)

Lemma span_app cls s : s = fst (span cls s) ++ snd (span cls s).
Proof.
  induction s as [|c s IH]; simpl; auto.
  destruct (cls c); simpl; auto. now f_equal.
Qed.

Lemma span_run cls s : all_chars cls (fst (span cls s)) = true.
Proof.
  induction s as [|c s IH]; simpl; auto.
  destruct (cls c) eqn:E; simpl; auto. now rewrite E.
Qed.

Lemma consumed_app (a b : string) : consumed (a ++ b) b = a.
Proof.
  unfold consumed. rewrite length_append, Nat.add_sub.
  induction a as [|c a IH]; simpl.
  - now destruct b.
  - now rewrite IH.
Qed.

(** Greedy repetition settles on the longest run when the continuation
    accepts what follows it, or accepts nothing that starts inside it. *)
Lemma plus_greedy_span {R : Type} cls (k : string -> option R) s :
  k (snd (span cls s)) <> None
  \/ (forall c r, cls c = true -> k (String c r) = None) ->
  plus_greedy cls k s
  = match fst (span cls s) with
    | EmptyString => None
    | String _ _ => k (snd (span cls s))
    end.
Proof.
  intros Hk. induction s as [|c s IH]; simpl; auto.
  destruct (cls c) eqn:Ec; simpl; auto.
  simpl in Hk. rewrite Ec in Hk. simpl in Hk. rewrite (IH Hk).
  pose proof (span_app cls s) as Hs.
  destruct (fst (span cls s)) as [|c' run] eqn:Erun.
  - simpl in Hs. now rewrite <- Hs.
  - destruct (k (snd (span cls s))) as [x|] eqn:Ek; auto.
    destruct Hk as [Hk|Hk]; [congruence|].
    rewrite Hs. simpl. apply Hk.
    pose proof (span_run cls s) as Hrun. rewrite Erun in Hrun. simpl in Hrun.
    now apply andb_true_iff in Hrun.
Qed.

Lemma close_semi_ahead g rest :
  rmatch close_semi (option string) g rest (fun g' _ => Some g')
  = if semi_ahead rest then Some g else None.
Proof.
  unfold close_semi, semi_ahead, after. cbn [rmatch].
  destruct rest as [|c rest]; auto.
  destruct (Ascii.eqb_spec ";" c) as [<-|Hc]; [reflexivity|].
  destruct (Ascii.eqb "]" c); auto.
  destruct rest as [|c' rest]; auto.
  destruct (Ascii.eqb ";" c'); auto.
Qed.

Lemma close_only_ahead g rest :
  rmatch close_only (option string) g rest (fun g' _ => Some g') = Some g.
Proof.
  unfold close_only. cbn [rmatch].
  destruct rest as [|c rest]; auto. now destruct (Ascii.eqb "]" c).
Qed.

Lemma semi_ahead_not_in_class c r :
  word_or_space c = true -> semi_ahead (String c r) = false.
Proof.
  unfold semi_ahead, after. intros Hc.
  destruct (Ascii.eqb_spec ";" c) as [<-|_]; [discriminate|].
  destruct (Ascii.eqb_spec "]" c) as [<-|_]; [discriminate|]. reflexivity.
Qed.

(** The group and its look-ahead, from the start of the label. *)
Lemma group_then_ahead la need_semi body :
  (forall g rest,
     rmatch la (option string) g rest (fun g' _ => Some g')
     = if negb need_semi || semi_ahead rest then Some g else None) ->
  plus_greedy word_or_space
    (fun rest =>
       match rmatch la (option string) (Some (consumed body rest)) rest
               (fun g' _ => Some g') with
       | Some g' => Some g'
       | None => None
       end) body
  = option_map Some
      match fst (span word_or_space body) with
      | EmptyString => None
      | run =>
          if negb need_semi || semi_ahead (snd (span word_or_space body))
          then Some run else None
      end.
Proof.
  intros Hla. rewrite plus_greedy_span.
  - rewrite Hla.
    assert (Hc : consumed body (snd (span word_or_space body))
                 = fst (span word_or_space body)).
    { pose proof (consumed_app (fst (span word_or_space body))
                    (snd (span word_or_space body))) as H.
      now rewrite <- span_app in H. }
    rewrite Hc.
    destruct (fst (span word_or_space body)) as [|a run]; auto.
    now destruct (negb need_semi || semi_ahead (snd (span word_or_space body))).
  - destruct need_semi.
    + right. intros c r Hc. rewrite Hla. cbn [negb orb].
      now rewrite semi_ahead_not_in_class.
    + left. rewrite Hla. discriminate.
Qed.

Lemma rank_re_scan la need_semi t s :
  (forall g rest,
     rmatch la (option string) g rest (fun g' _ => Some g')
     = if negb need_semi || semi_ahead rest then Some g else None) ->
  match_here (rank_re t la) s = option_map Some (rank_scan t need_semi s).
Proof.
  intros Hla.
  unfold match_here, rank_re. cbn [rmatch]. unfold rank_scan, after.
  destruct s as [|c0 s]; [reflexivity|].
  destruct (Ascii.eqb t c0); [|reflexivity].
  destruct s as [|c1 s]; [reflexivity|].
  destruct (Ascii.eqb "_" c1); [|reflexivity].
  destruct s as [|c2 s]; [reflexivity|].
  destruct (Ascii.eqb "_" c2); [|reflexivity].
  destruct s as [|c3 s].
  - now rewrite (group_then_ahead la need_semi "" Hla).
  - destruct (Ascii.eqb_spec "[" c3) as [<-|Hc].
    + rewrite (group_then_ahead la need_semi s Hla).
      destruct (option_map Some
                  match fst (span word_or_space s) with
                  | EmptyString => None
                  | String a r =>
                      if negb need_semi || semi_ahead (snd (span word_or_space s))
                      then Some (String a r) else None
                  end) eqn:E; auto.
    + now rewrite (group_then_ahead la need_semi (String c3 s) Hla).
Qed.

(** The direct reading of [search]: the first position the scanner
    accepts. *)
Lemma search_scan la need_semi t s :
  (forall g rest,
     rmatch la (option string) g rest (fun g' _ => Some g')
     = if negb need_semi || semi_ahead rest then Some g else None) ->
  search (rank_re t la) s = option_map Some (rank_find t need_semi s).
Proof.
  intros Hla. induction s as [|c s IH]; cbn [search rank_find];
    rewrite (rank_re_scan la need_semi t _ Hla).
  - now destruct (rank_scan t need_semi "").
  - destruct (rank_scan t need_semi (String c s)); auto.
Qed.

(** X1. Each of the seven patterns behaves as the scanner of its rank:
    backtracking never changes a match, the label is always the longest
    run of word and space characters after the tag and an optional opening
    bracket, and all ranks but the species need [;] or [];] right after. *)
Theorem rank_patterns_scan (taxa : string) :
  map (fun reg_ex => search reg_ex taxa) _generate_taxa_reg_exs
  = map (fun r => option_map Some (rank_find (fst r) (snd r) taxa)) ranks.
Proof.
  unfold _generate_taxa_reg_exs, ranks. cbn [map fst snd].
  rewrite !(search_scan close_semi true) by (intros; apply close_semi_ahead).
  rewrite (search_scan close_only false) by (intros; apply close_only_ahead).
  reflexivity.
Qed.

(** *** The labels and the keys *)

Lemma rank_scan_label t need_semi s run :
  rank_scan t need_semi s = Some run ->
  run <> "" /\ all_chars word_or_space run = true.
Proof.
  unfold rank_scan.
  destruct (after t s) as [s1|]; [|discriminate].
  destruct (after "_" s1) as [s2|]; [|discriminate].
  destruct (after "_" s2) as [s3|]; [|discriminate].
  set (body := match after "[" s3 with Some s4 => s4 | None => s3 end).
  pose proof (span_run word_or_space body) as Hrun.
  destruct (fst (span word_or_space body)) as [|a r]; [discriminate|].
  destruct (negb need_semi || semi_ahead (snd (span word_or_space body)));
    [|discriminate].
  intros [= <-]. split; [discriminate|exact Hrun].
Qed.

Lemma rank_find_label t need_semi s run :
  rank_find t need_semi s = Some run ->
  run <> "" /\ all_chars word_or_space run = true.
Proof.
  induction s as [|c s IH]; cbn [rank_find].
  - destruct (rank_scan t need_semi "") eqn:E; [|discriminate].
    intros [= <-]. eapply rank_scan_label; eauto.
  - destruct (rank_scan t need_semi (String c s)) eqn:E; auto.
    intros [= <-]. eapply rank_scan_label; eauto.
Qed.

Lemma search_label reg_ex taxa m :
  In reg_ex _generate_taxa_reg_exs ->
  search reg_ex taxa = Some m ->
  group1 m <> "" /\ all_chars word_or_space (group1 m) = true.
Proof.
  intros Hin Hs.
  assert (H : exists t b, search reg_ex taxa
                          = option_map Some (rank_find t b taxa)).
  { unfold _generate_taxa_reg_exs in Hin. simpl in Hin.
    repeat (destruct Hin as [<-|Hin];
            [first [ exists "s"%char, false;
                     apply (search_scan close_only false);
                     intros; apply close_only_ahead
                   | eexists _, true;
                     apply (search_scan close_semi true);
                     intros; apply close_semi_ahead ]|]).
    contradiction. }
  destruct H as (t & b & H). rewrite H in Hs.
  destruct (rank_find t b taxa) as [run|] eqn:E; [|discriminate].
  inversion Hs; subst m. simpl. eapply rank_find_label; eauto.
Qed.

Lemma key_items_Forall (P : string -> Prop) post reg_exs taxa :
  (forall reg_ex m, In reg_ex reg_exs -> search reg_ex taxa = Some m ->
     P (post (group1 m))) ->
  Forall P (key_items post reg_exs taxa).
Proof.
  induction reg_exs as [|r rs IH]; intros H; simpl; [constructor|].
  destruct (search r taxa) as [m|] eqn:E; constructor.
  - apply (H r m); simpl; auto.
  - apply IH. intros r' m' Hin. apply H. now right.
Qed.

Lemma all_chars_rstrip p s : all_chars p s = true -> all_chars p (rstrip s) = true.
Proof.
  induction s as [|c s IH]; simpl; auto.
  intros H. apply andb_true_iff in H. destruct H as [Hc Hs].
  specialize (IH Hs).
  destruct (rstrip s) as [|a r].
  - destruct (isspace c); simpl; auto. now rewrite Hc.
  - simpl in *. now rewrite Hc, IH.
Qed.

(** X2. A label of the reference parser is never empty and holds only word
    and space characters; a label of the input parser holds only such
    characters too (it can be empty, when the match was all whitespace). *)
Theorem labels_are_words (taxa : string) :
  Forall (fun label => label <> "" /\ all_chars word_or_space label = true)
    (db_key_items taxa)
  /\ Forall (fun label => all_chars word_or_space label = true)
       (input_key_items taxa).
Proof.
  split; apply key_items_Forall; intros r m Hin Hs;
    destruct (search_label r taxa m Hin Hs) as [Hne Hall]; auto.
  now apply all_chars_rstrip.
Qed.

Lemma split_whole (s : string) :
  all_chars not_semi s = true -> split ";" s = [s].
Proof.
  induction s as [|c s IH]; simpl; auto.
  intros H. apply andb_true_iff in H. destruct H as [Hc Hs].
  unfold not_semi in Hc. apply negb_true_iff in Hc.
  now rewrite Hc, (IH Hs).
Qed.

Lemma split_app_semi (a rest : string) :
  all_chars not_semi a = true ->
  split ";" (a ++ String ";" rest) = a :: split ";" rest.
Proof.
  induction a as [|c a IH]; simpl; auto.
  intros H. apply andb_true_iff in H. destruct H as [Hc Ha].
  unfold not_semi in Hc. apply negb_true_iff in Hc.
  now rewrite Hc, (IH Ha).
Qed.

(** Splitting a key at its semicolons gives the labels back. *)
Lemma split_join (items : list string) :
  items <> [] ->
  Forall (fun label => all_chars not_semi label = true) items ->
  split ";" (join ";" items) = items.
Proof.
  unfold join. induction items as [|x xs IH]; [congruence|].
  intros _ Hall. inversion Hall as [|? ? Hx Hxs]; subst.
  destruct xs as [|y ys].
  - simpl. now apply split_whole.
  - change (String.concat ";" (x :: y :: ys))
      with (x ++ String ";" (String.concat ";" (y :: ys))).
    rewrite split_app_semi by assumption.
    f_equal. apply IH; [discriminate|assumption].
Qed.

Lemma words_have_no_semi (s : string) :
  all_chars word_or_space s = true -> all_chars not_semi s = true.
Proof.
  induction s as [|c s IH]; simpl; auto.
  intros H. apply andb_true_iff in H. destruct H as [Hc Hs].
  rewrite (IH Hs), andb_true_r. unfold not_semi.
  destruct (Ascii.eqb_spec c ";") as [->|]; [discriminate|reflexivity].
Qed.

Lemma db_labels_no_semi taxa :
  Forall (fun label => all_chars not_semi label = true) (db_key_items taxa).
Proof.
  apply key_items_Forall. intros r m Hin Hs.
  apply words_have_no_semi. now apply (search_label r taxa m).
Qed.

Lemma input_labels_no_semi taxa :
  Forall (fun label => all_chars not_semi label = true) (input_key_items taxa).
Proof.
  apply key_items_Forall. intros r m Hin Hs.
  apply words_have_no_semi, all_chars_rstrip.
  now apply (search_label r taxa m).
Qed.

(** X3. A canonical key determines its labels: splitting the key of a
    parsed annotation at the semicolons returns the labels, so two
    annotations have the same key only when they have the same labels. *)
Theorem canonical_key_injective :
  (forall taxa, db_key_items taxa <> [] ->
     split ";" (join ";" (db_key_items taxa)) = db_key_items taxa)
  /\ (forall taxa, input_key_items taxa <> [] ->
        split ";" (join ";" (input_key_items taxa)) = input_key_items taxa)
  /\ (forall a b, db_key_items a <> [] -> db_key_items b <> [] ->
        join ";" (db_key_items a) = join ";" (db_key_items b) ->
        db_key_items a = db_key_items b)
  /\ (forall a b, input_key_items a <> [] -> input_key_items b <> [] ->
        join ";" (input_key_items a) = join ";" (input_key_items b) ->
        input_key_items a = input_key_items b).
Proof.
  assert (Hdb : forall taxa, db_key_items taxa <> [] ->
            split ";" (join ";" (db_key_items taxa)) = db_key_items taxa).
  { intros taxa Hne. apply split_join; auto. apply db_labels_no_semi. }
  assert (Hin : forall taxa, input_key_items taxa <> [] ->
            split ";" (join ";" (input_key_items taxa)) = input_key_items taxa).
  { intros taxa Hne. apply split_join; auto. apply input_labels_no_semi. }
  repeat split; auto.
  - intros a b Ha Hb E. rewrite <- (Hdb a Ha), <- (Hdb b Hb). now rewrite E.
  - intros a b Ha Hb E. rewrite <- (Hin a Ha), <- (Hin b Hb). now rewrite E.
Qed.

(** *** When the reference curation succeeds *)

Lemma keep_lines_filter {A : Arith} (input_file : list string) :
  Forall (fun l => l <> "") input_file ->
  keep_lines input_file = Ok (map rstrip (filter starts_with_k input_file)).
Proof.
  induction 1 as [|l ls Hl _ IH]; auto.
  destruct l as [|c l]; [congruence|].
  cbn [keep_lines filter starts_with_k]. rewrite IH. cbn [bind].
  now destruct (Ascii.eqb c "k").
Qed.

Lemma keep_lines_empty_line {A : Arith} (input_file : list string) :
  In "" input_file -> keep_lines input_file = Raise IndexError.
Proof.
  induction input_file as [|l ls IH]; [easy|].
  intros [->|Hin]; [reflexivity|].
  destruct l as [|c l]; [reflexivity|].
  cbn [keep_lines]. now rewrite (IH Hin).
Qed.

Lemma keep_lines_raises {A : Arith} (input_file : list string) e :
  keep_lines input_file = Raise e -> e = IndexError /\ In "" input_file.
Proof.
  induction input_file as [|l ls IH]; [discriminate|].
  destruct l as [|c l].
  - intros [= <-]. split; auto. now left.
  - cbn [keep_lines]. destruct (keep_lines ls) as [kept|e'] eqn:E.
    + discriminate.
    + cbn [bind]. intros [= <-]. destruct (IH eq_refl). split; auto.
      now right.
Qed.

Lemma read_factor_ok {A : Arith} (d : dict num) (l : list string) :
  fields_ok l = true -> exists d', read_factor d l = Ok d'.
Proof.
  unfold fields_ok, read_factor, getitem, to_float.
  destruct l as [|raw [|txt rest]]; try discriminate.
  cbn [nth_error bind]. destruct (float txt); [|discriminate].
  cbn [bind]. eauto.
Qed.

Lemma read_factor_raises {A : Arith} (d : dict num) (l : list string) :
  fields_ok l = false ->
  exists e, read_factor d l = Raise e /\ (e = IndexError \/ e = ValueError).
Proof.
  unfold fields_ok, read_factor, getitem, to_float.
  destruct l as [|raw [|txt rest]]; cbn [nth_error bind]; eauto.
  destruct (float txt); [discriminate|]. cbn [bind]. eauto.
Qed.

Lemma staging_runs {A : Arith} (tds : list (list string)) :
  forall d,
    (Forall (fun l => fields_ok l = true) tds ->
     exists d', for_each read_factor tds d = Ok d')
    /\ (~ Forall (fun l => fields_ok l = true) tds ->
        exists e, for_each read_factor tds d = Raise e
                  /\ (e = IndexError \/ e = ValueError)).
Proof.
  induction tds as [|l tds IH]; intros d.
  - split; [intros _; simpl; eauto|]. intros H. exfalso. apply H. constructor.
  - cbn [for_each]. destruct (fields_ok l) eqn:El.
    + destruct (read_factor_ok d l El) as [d1 ->]. cbn [bind].
      destruct (IH d1) as [Hok Herr]. split.
      * intros H. inversion H; subst. auto.
      * intros H. apply Herr. intros Hall. apply H. now constructor.
    + destruct (read_factor_raises d l El) as (e & -> & He). cbn [bind].
      split; [|eauto]. intros H. inversion H; subst. congruence.
Qed.

Lemma get_of_key {V : Type} (d : dict V) k :
  In k (keys d) -> exists v, get d k = Some v.
Proof.
  induction d as [|[k' v'] d IH]; [easy|]. simpl.
  destruct (String.eqb_spec k' k) as [->|Hne]; [eauto|].
  intros [H|H]; [congruence|auto].
Qed.

(** The lookup of the curation loop finds every staged annotation, so the
    loop itself never raises. *)
Lemma curate_loop_runs {A : Arith} (factors : dict num) (k_list : list string) :
  (forall raw, In raw k_list -> exists v, get factors raw = Some v) ->
  forall st, exists st', for_each (curate_key factors) k_list st = Ok st'.
Proof.
  induction k_list as [|raw k_list IH]; intros Hget st; [simpl; eauto|].
  cbn [for_each].
  assert (Hstep : exists st1, curate_key factors st raw = Ok st1).
  { unfold curate_key, lookup.
    destruct (db_key_items raw) as [|x xs]; [eauto|].
    destruct (negb (mem (taxa_to_rrna_copy_dict st) (join ";" (x :: xs))));
      [|eauto].
    destruct (Hget raw (or_introl eq_refl)) as [v ->]. cbn [bind]. eauto. }
  destruct Hstep as [st1 ->]. cbn [bind]. apply IH.
  intros r Hr. apply Hget. now right.
Qed.

Lemma curate_db_phases {A : Arith} (input_file : list string) :
  _curate_db input_file
  = (factors <- stage input_file ;;
     for_each (curate_key factors) (keys factors) db_init).
Proof.
  unfold _curate_db, stage. now destruct (keep_lines input_file).
Qed.

Lemma curate_db_raises {A : Arith} (input_file : list string) e :
  _curate_db input_file = Raise e -> e = IndexError \/ e = ValueError.
Proof.
  rewrite curate_db_phases. unfold stage.
  destruct (keep_lines input_file) as [kept|e0] eqn:Ekeep; cbn [bind].
  - destruct (for_each read_factor (two_d_list kept) []) as [factors|e1] eqn:Est;
      cbn [bind].
    + destruct (curate_loop_runs factors (keys factors)
                  (fun raw => get_of_key factors raw) db_init) as [st ->].
      discriminate.
    + intros [= <-].
      destruct (staging_runs (two_d_list kept) []) as [Hok Herr].
      destruct (Forall_dec (fun l => fields_ok l = true)
                  (fun l => Bool.bool_dec (fields_ok l) true)
                  (two_d_list kept)) as [Hall|Hnot].
      * destruct (Hok Hall) as [d' Hd']. congruence.
      * destruct (Herr Hnot) as (e & He & Hkind). congruence.
  - intros [= <-]. left. now apply keep_lines_raises in Ekeep.
Qed.

(** X4. The reference curation succeeds exactly when the file has no
    empty line and every line starting with [k] has, once right-stripped, a
    second tab-separated field that [float] reads. It fails with
    [IndexError] (an empty line, a record with no tab) or [ValueError] (a
    field that is no number), and never in the lookup of its main loop. *)
Theorem curate_db_succeeds_iff {A : Arith} (input_file : list string) :
  ((exists st, _curate_db input_file = Ok st)
   <-> Forall (fun l => l <> "") input_file
       /\ Forall (fun l => starts_with_k l = true ->
                    fields_ok (firstn 2 (split "009" (rstrip l))) = true)
            input_file)
  /\ (forall e, _curate_db input_file = Raise e ->
        e = IndexError \/ e = ValueError).
Proof.
  rewrite curate_db_phases. unfold stage.
  assert (Hfields :
    Forall (fun l => fields_ok l = true)
      (two_d_list (map rstrip (filter starts_with_k input_file)))
    <-> Forall (fun l => starts_with_k l = true ->
                  fields_ok (firstn 2 (split "009" (rstrip l))) = true)
          input_file).
  { unfold two_d_list. rewrite !Forall_map. rewrite !Forall_forall. split.
    - intros H l Hin Hk. apply H. apply filter_In. auto.
    - intros H l Hin. apply filter_In in Hin. destruct Hin. auto. }
  assert (Hloop : forall factors : dict num,
            exists st, for_each (curate_key factors) (keys factors) db_init
                       = Ok st).
  { intros factors. apply curate_loop_runs. intros raw. apply get_of_key. }
  destruct (keep_lines input_file) as [kept|e0] eqn:Ekeep.
  - assert (Hne : Forall (fun l => l <> "") input_file).
    { apply Forall_forall. intros l Hin ->.
      rewrite (keep_lines_empty_line _ Hin) in Ekeep. discriminate. }
    rewrite (keep_lines_filter _ Hne) in Ekeep. inversion Ekeep; subst kept.
    cbn [bind].
    destruct (staging_runs
                (two_d_list (map rstrip (filter starts_with_k input_file))) [])
      as [Hok Herr].
    split.
    + split.
      * intros [st Hst]. split; auto. apply Hfields.
        destruct (Forall_dec (fun l => fields_ok l = true)
                    (fun l => Bool.bool_dec (fields_ok l) true)
                    (two_d_list (map rstrip (filter starts_with_k input_file))))
          as [Hall|Hnot]; auto.
        destruct (Herr Hnot) as (e & He & _). rewrite He in Hst. discriminate.
      * intros [_ Hall]. apply Hfields in Hall.
        destruct (Hok Hall) as [factors ->]. cbn [bind]. apply Hloop.
    + intros e.
      destruct (for_each read_factor
                  (two_d_list (map rstrip (filter starts_with_k input_file)))
                  []) as [factors|e1] eqn:Est.
      * cbn [bind]. destruct (Hloop factors) as [st ->]. discriminate.
      * cbn [bind]. intros [= <-].
        destruct (Forall_dec (fun l => fields_ok l = true)
                    (fun l => Bool.bool_dec (fields_ok l) true)
                    (two_d_list (map rstrip (filter starts_with_k input_file))))
          as [Hall|Hnot].
        -- destruct (Hok Hall) as [d' Hd']. congruence.
        -- destruct (Herr Hnot) as (e & He & Hkind). congruence.
  - cbn [bind]. apply keep_lines_raises in Ekeep. destruct Ekeep as [-> Hin].
    split.
    + split.
      * intros [st Hst]. discriminate.
      * intros [Hne _]. rewrite Forall_forall in Hne. now destruct (Hne "" Hin).
    + intros e [= <-]. now left.
Qed.

(** *** What the reference curation leaves behind *)

Section DictOrder.

Context {V : Type}.

Lemma keys_set (d : dict V) k v :
  keys (set d k v) = if mem d k then keys d else (keys d ++ [k])%list.
Proof.
  unfold mem. induction d as [|[k' v'] d IH]; simpl; auto.
  destruct (String.eqb k' k); simpl; auto.
  rewrite IH. now destruct (get d k).
Qed.

Lemma in_keys_mem (d : dict V) k : In k (keys d) <-> mem d k = true.
Proof.
  split.
  - intros H. apply mem_get. now apply get_of_key.
  - unfold mem. induction d as [|[k' v'] d IH]; simpl; [discriminate|].
    destruct (String.eqb_spec k' k); auto.
Qed.

Lemma NoDup_keys_set (d : dict V) k v :
  NoDup (keys d) -> NoDup (keys (set d k v)).
Proof.
  intros H. rewrite keys_set. destruct (mem d k) eqn:E; auto.
  apply NoDup_app; auto.
  - repeat constructor. easy.
  - intros x Hx [<-|[]]. apply in_keys_mem in Hx. congruence.
Qed.

Lemma length_set (d : dict V) k v :
  length (set d k v) = if mem d k then length d else S (length d).
Proof.
  unfold mem. induction d as [|[k' v'] d IH]; simpl; auto.
  destruct (String.eqb k' k); simpl; auto.
  rewrite IH. now destruct (get d k).
Qed.

Lemma mem_set (d : dict V) k v k' :
  mem (set d k v) k' = (String.eqb k k' || mem d k').
Proof.
  unfold mem. destruct (String.eqb_spec k k') as [->|Hne].
  - now rewrite get_set_same.
  - now rewrite get_set_other.
Qed.

End DictOrder.

Lemma list_sum_set_absent (d : dict nat) k n :
  get d k = None -> list_sum (values (set d k n)) = list_sum (values d) + n.
Proof.
  intros H. rewrite (set_absent d k n H). unfold values.
  rewrite map_app, list_sum_app. simpl. lia.
Qed.

Lemma list_sum_set_present (d : dict nat) k n m :
  get d k = Some n ->
  list_sum (values (set d k m)) + n = list_sum (values d) + m.
Proof.
  induction d as [|[k' v'] d IH]; simpl; [discriminate|].
  destruct (String.eqb k' k); simpl.
  - intros [= ->]. lia.
  - intros H. specialize (IH H). lia.
Qed.

(** What each pass of the curation loop keeps. *)
Definition curated {A : Arith} (st : db_state A) : Prop :=
  NoDup (keys (taxa_to_rrna_copy_dict st))
  /\ count_added st = length (taxa_to_rrna_copy_dict st)
  /\ NoDup (keys (already_present_dict st))
  /\ forall key n, get (already_present_dict st) key = Some n ->
       mem (taxa_to_rrna_copy_dict st) key = true /\ 2 <= n.

Lemma get_incr (d : dict nat) k key :
  get (incr 1 d k) key
  = if String.eqb k key
    then Some match get d k with Some n => n + 1 | None => 2 end
    else get d key.
Proof.
  unfold incr. destruct (String.eqb_spec k key) as [->|Hne].
  - destruct (get d key); now rewrite get_set_same.
  - destruct (get d k); now rewrite get_set_other.
Qed.

Lemma curated_step {A : Arith} (factors : dict num) st raw st' :
  curated st -> curate_key factors st raw = Ok st' -> curated st'.
Proof.
  intros (Hnd & Hcount & Hnd' & Hdup). unfold curate_key.
  destruct (db_key_items raw) as [|x xs]; [now intros [= <-]|].
  generalize (join ";" (x :: xs)) as k. intros k.
  destruct (mem (taxa_to_rrna_copy_dict st) k) eqn:Hm; cbn [negb].
  - intros [= <-]. unfold curated.
    cbn [taxa_to_rrna_copy_dict count_added already_present_dict].
    refine (conj Hnd (conj Hcount (conj _ _))).
    + unfold incr. destruct (get (already_present_dict st) k);
        now apply NoDup_keys_set.
    + intros key n. rewrite get_incr.
      destruct (String.eqb_spec k key) as [->|Hne]; [|apply Hdup].
      intros [= <-]. split; auto.
      destruct (get (already_present_dict st) key) as [n0|] eqn:E; [|lia].
      destruct (Hdup key n0 E). lia.
  - destruct (lookup factors raw) as [v|e]; cbn [bind]; [|discriminate].
    intros [= <-]. unfold curated.
    cbn [taxa_to_rrna_copy_dict count_added already_present_dict].
    refine (conj _ (conj _ (conj Hnd' _))).
    + now apply NoDup_keys_set.
    + rewrite length_set, Hm. lia.
    + intros key n H. destruct (Hdup key n H) as [Hk Hn]. split; auto.
      rewrite mem_set, Hk. apply orb_true_r.
Qed.

(** X5. After a successful curation the keys of the table are pairwise
    distinct and [count_added] is their number; every key of the duplicate
    report is a key of the table, is listed once, and is reported with a
    count of at least 2. *)
Theorem curate_db_invariants {A : Arith} (input_file : list string)
    (st : db_state A) :
  _curate_db input_file = Ok st ->
  NoDup (keys (taxa_to_rrna_copy_dict st))
  /\ count_added st = length (taxa_to_rrna_copy_dict st)
  /\ NoDup (keys (already_present_dict st))
  /\ forall key n, get (already_present_dict st) key = Some n ->
       mem (taxa_to_rrna_copy_dict st) key = true /\ 2 <= n.
Proof.
  rewrite curate_db_phases.
  destruct (stage input_file) as [factors|e]; cbn [bind]; [|discriminate].
  apply (for_each_invariant curated).
  - intros s raw s' _. apply curated_step.
  - unfold curated, db_init. cbn. repeat split; try constructor.
    all: discriminate.
Qed.

Lemma curate_db_invariants_witness :
  NoDup (keys (V := @num f64) [("A;B", 3%float)])
  /\ 1 = length (A := string * @num f64) [("A;B", 3%float)]
  /\ NoDup (keys [("A;B", 2)])
  /\ forall key n,
       get [("A;B", 2)] key = Some n ->
       mem (V := @num f64) [("A;B", 3%float)] key = true /\ 2 <= n.
Proof.
  apply (curate_db_invariants (A := f64) db_two_spellings
           (@Build_db_state f64 [("A;B", 3%float)] 1 [("A;B", 2)])).
  reflexivity.
Defined.

(** One pass of the loop, in the figures of the report. *)
Lemma accounting_step {A : Arith} (factors : dict num) st raw st' :
  curate_key factors st raw = Ok st' ->
  count_added st' + duplicate_instances st' + duplicated_keys st
  = count_added st + duplicate_instances st + duplicated_keys st'
    + (if parsable raw then 1 else 0).
Proof.
  unfold curate_key, parsable, duplicate_instances, duplicated_keys.
  destruct (db_key_items raw) as [|x xs]; [intros [= <-]; lia|].
  generalize (join ";" (x :: xs)) as k. intros k.
  destruct (mem (taxa_to_rrna_copy_dict st) k); cbn [negb].
  - intros [= <-].
    cbn [taxa_to_rrna_copy_dict count_added already_present_dict].
    unfold incr.
    destruct (get (already_present_dict st) k) as [n|] eqn:E.
    + pose proof (list_sum_set_present _ k n (n + 1) E) as Hsum.
      rewrite length_set. unfold mem. rewrite E. lia.
    + rewrite (list_sum_set_absent _ k _ E).
      rewrite length_set. unfold mem. rewrite E. simpl. lia.
  - destruct (lookup factors raw) as [v|e]; cbn [bind]; [|discriminate].
    intros [= <-].
    cbn [taxa_to_rrna_copy_dict count_added already_present_dict]. lia.
Qed.

Lemma accounting_loop {A : Arith} (factors : dict num) (k_list : list string) :
  forall st st',
    for_each (curate_key factors) k_list st = Ok st' ->
    count_added st' + duplicate_instances st' + duplicated_keys st
    = count_added st + duplicate_instances st + duplicated_keys st'
      + length (filter parsable k_list).
Proof.
  induction k_list as [|raw k_list IH]; intros st st'; cbn [for_each filter].
  - intros [= <-]. simpl. lia.
  - destruct (curate_key factors st raw) as [st1|e] eqn:E; cbn [bind];
      [|discriminate].
    intros Hrun. specialize (IH st1 st' Hrun).
    pose proof (accounting_step factors st raw st1 E) as Hstep.
    destruct (parsable raw); simpl; lia.
Qed.

(** X6. The figures of the report add up: the keys added plus the
    duplicate instances reported equal the number of distinct annotations
    that parse plus the number of duplicated keys (each duplicated key is
    counted once more than its extra records, the counter starting at 1). *)
Theorem report_accounting {A : Arith} (input_file : list string)
    (st : db_state A) :
  _curate_db input_file = Ok st ->
  exists factors,
    stage input_file = Ok factors
    /\ count_added st + duplicate_instances st
       = length (filter parsable (keys factors)) + duplicated_keys st.
Proof.
  rewrite curate_db_phases.
  destruct (stage input_file) as [factors|e]; cbn [bind]; [|discriminate].
  intros Hrun. exists factors. split; auto.
  pose proof (accounting_loop factors _ _ _ Hrun) as H.
  unfold duplicate_instances, duplicated_keys in *. simpl in H. lia.
Qed.

Lemma report_accounting_witness :
  exists factors,
    stage (A := f64) db_two_spellings = Ok factors
    /\ 1 + 2 = length (filter parsable (keys factors)) + 1.
Proof.
  apply (report_accounting (A := f64) db_two_spellings
           (@Build_db_state f64 [("A;B", 3%float)] 1 [("A;B", 2)])).
  reflexivity.
Defined.

(** The table after the loop, key by key. *)
Lemma table_after_loop {A : Arith} (factors : dict num) (k_list : list string) :
  forall st st',
    for_each (curate_key factors) k_list st = Ok st' ->
    forall key,
      get (taxa_to_rrna_copy_dict st') key
      = match get (taxa_to_rrna_copy_dict st) key with
        | Some v => Some v
        | None =>
            match find (yields key) k_list with
            | Some raw => get factors raw
            | None => None
            end
        end.
Proof.
  induction k_list as [|raw k_list IH]; intros st st'; cbn [for_each find].
  - intros [= <-] key. now destruct (get (taxa_to_rrna_copy_dict st) key).
  - destruct (curate_key factors st raw) as [st1|e] eqn:E; cbn [bind];
      [|discriminate].
    intros Hrun key. rewrite (IH st1 st' Hrun key). clear IH Hrun.
    revert E. unfold curate_key, yields.
    destruct (db_key_items raw) as [|x xs]; [now intros [= <-]|].
    generalize (join ";" (x :: xs)) as k. intros k.
    destruct (mem (taxa_to_rrna_copy_dict st) k) eqn:Hm; cbn [negb].
    + intros [= <-]. cbn [taxa_to_rrna_copy_dict].
      destruct (get (taxa_to_rrna_copy_dict st) key) eqn:Hg; auto.
      destruct (String.eqb_spec k key) as [->|]; auto.
      apply mem_get in Hm. destruct Hm. congruence.
    + unfold lookup. destruct (get factors raw) as [v|] eqn:Hv; cbn [bind];
        [|discriminate].
      intros [= <-]. cbn [taxa_to_rrna_copy_dict].
      apply mem_false_get in Hm.
      destruct (String.eqb_spec k key) as [->|Hne].
      * now rewrite get_set_same, Hm.
      * now rewrite get_set_other.
Qed.

(** X7. First seen wins among the staged annotations: the table holds, for
    each key, the staged value of the first annotation (in the order of the
    staging dictionary) that yields this key, and no entry for a key that
    none yields. *)
Theorem table_holds_first_annotation {A : Arith} (input_file : list string)
    (st : db_state A) :
  _curate_db input_file = Ok st ->
  exists factors,
    stage input_file = Ok factors
    /\ forall key,
         get (taxa_to_rrna_copy_dict st) key
         = match find (yields key) (keys factors) with
           | Some raw => get factors raw
           | None => None
           end.
Proof.
  rewrite curate_db_phases.
  destruct (stage input_file) as [factors|e]; cbn [bind]; [|discriminate].
  intros Hrun. exists factors. split; auto. intros key.
  now rewrite (table_after_loop factors _ _ _ Hrun key).
Qed.

Lemma table_holds_first_annotation_witness :
  exists factors,
    stage (A := f64) db_two_spellings = Ok factors
    /\ forall key,
         get (V := @num f64) [("A;B", 3%float)] key
         = match find (yields key) (keys factors) with
           | Some raw => get factors raw
           | None => None
           end.
Proof.
  apply (table_holds_first_annotation (A := f64) db_two_spellings
           (@Build_db_state f64 [("A;B", 3%float)] 1 [("A;B", 2)])).
  reflexivity.
Defined.

(** *** The staging dictionary *)

Lemma read_factor_inv {A : Arith} (d d' : dict num) (l : list string) :
  read_factor d l = Ok d' ->
  exists v, float (text_of l) = Some v /\ d' = set d (raw_of l) v.
Proof.
  unfold read_factor, getitem, to_float, text_of, raw_of.
  destruct l as [|raw [|txt rest]]; cbn [nth_error bind nth]; try discriminate.
  destruct (float txt) as [v|]; cbn [bind]; [|discriminate].
  intros [= <-]. eauto.
Qed.

Lemma existsb_keys {V : Type} (d : dict V) k :
  existsb (String.eqb k) (keys d) = mem d k.
Proof.
  unfold mem. induction d as [|[k' v'] d IH]; simpl; auto.
  rewrite String.eqb_sym. destruct (String.eqb k' k); simpl; auto.
Qed.

Lemma find_last {X : Type} (f : X -> bool) (l : list X) (x : X) :
  find f (l ++ [x])
  = match find f l with
    | Some y => Some y
    | None => if f x then Some x else None
    end.
Proof.
  induction l as [|y l IH]; simpl; auto. now destruct (f y).
Qed.

Lemma staging_loop {A : Arith} (tds : list (list string)) :
  forall d d',
    for_each read_factor tds d = Ok d' ->
    keys d' = (keys d ++ first_seen (keys d) (map raw_of tds))%list
    /\ forall raw,
         get d' raw
         = match find (fun r => String.eqb (raw_of r) raw) (rev tds) with
           | Some r => float (text_of r)
           | None => get d raw
           end.
Proof.
  induction tds as [|l tds IH]; intros d d'; cbn [for_each map first_seen rev].
  - intros [= <-]. split; [now rewrite app_nil_r|reflexivity].
  - destruct (read_factor d l) as [d1|e] eqn:E; cbn [bind]; [|discriminate].
    intros Hrun. destruct (IH d1 d' Hrun) as [Hkeys Hget].
    apply read_factor_inv in E. destruct E as (v & Hv & ->).
    split.
    + rewrite Hkeys, keys_set, existsb_keys.
      destruct (mem d (raw_of l)); auto. now rewrite <- app_assoc.
    + intros raw. rewrite Hget, find_last.
      destruct (find (fun r => String.eqb (raw_of r) raw) (rev tds)); auto.
      destruct (String.eqb_spec (raw_of l) raw) as [<-|Hne].
      * now rewrite get_set_same.
      * now rewrite get_set_other.
Qed.

(** X8. The staging dictionary lists the annotations of the records in
    the order of their first occurrence, each once, and holds for each the
    number read from the last record that carries this very text. *)
Theorem staging_keeps_last_record {A : Arith} (input_file : list string)
    (factors : dict num) :
  stage input_file = Ok factors ->
  keys factors = first_seen [] (map raw_of (records input_file))
  /\ forall raw,
       get factors raw
       = match find (fun r => String.eqb (raw_of r) raw)
                 (rev (records input_file)) with
         | Some r => float (text_of r)
         | None => None
         end.
Proof.
  unfold stage, records.
  destruct (keep_lines input_file) as [kept|e] eqn:Ekeep; cbn [bind];
    [|discriminate].
  assert (Hne : Forall (fun l => l <> "") input_file).
  { apply Forall_forall. intros l Hin ->.
    rewrite (keep_lines_empty_line _ Hin) in Ekeep. discriminate. }
  rewrite (keep_lines_filter _ Hne) in Ekeep. inversion Ekeep; subst kept.
  intros Hrun. now destruct (staging_loop _ _ _ Hrun).
Qed.

Lemma staging_keeps_last_record_witness :
  keys (V := @num f64) [("k__A;p__B;", 5%float)]
  = first_seen [] (map raw_of (records db_repeated_line))
  /\ forall raw,
       get (V := @num f64) [("k__A;p__B;", 5%float)] raw
       = match find (fun r => String.eqb (raw_of r) raw)
                 (rev (records db_repeated_line)) with
         | Some r => @float f64 (text_of r)
         | None => None
         end.
Proof.
  apply (staging_keeps_last_record (A := f64) db_repeated_line).
  reflexivity.
Defined.

(** *** More on the input reconciler *)

Lemma map_taxon_runs {A : Arith} (ref : dict num) m taxa_a :
  input_key_items taxa_a <> [] -> exists m', map_taxon ref m taxa_a = Ok m'.
Proof.
  intros Hne. destruct (mem m taxa_a) eqn:Hm.
  - rewrite map_taxon_seen by auto. eauto.
  - rewrite map_taxon_fresh by auto. eauto.
Qed.

Lemma curate_input_runs {A : Arith} (ref : dict num) (index : list string) :
  Forall (fun t => input_key_items t <> []) index ->
  forall m0, exists m, for_each (map_taxon ref) index m0 = Ok m.
Proof.
  induction 1 as [|t index Ht _ IH]; intros m0; [simpl; eauto|].
  cbn [for_each]. destruct (map_taxon_runs ref m0 t Ht) as [m1 ->].
  cbn [bind]. apply IH.
Qed.

Lemma curate_input_raises {A : Arith} (ref : dict num) (index : list string) :
  forall m0 e,
    for_each (map_taxon ref) index m0 = Raise e ->
    e = RuntimeError "Key conversion was not possible.".
Proof.
  induction index as [|t index IH]; intros m0 e; cbn [for_each];
    [discriminate|].
  destruct (map_taxon ref m0 t) as [m1|e1] eqn:E; cbn [bind].
  - apply IH.
  - intros [= <-]. now destruct (map_taxon_raises ref m0 t e1 E).
Qed.

(** X10. The reconciliation map does not depend on the order of the rows
    nor on their repetition: two indexes with the same taxa give maps that
    agree on every taxon. *)
Theorem curate_input_order_free {A : Arith} (ref : dict num)
    (index1 index2 : list string) (m1 m2 : dict string) :
  _curate_input ref index1 = Ok m1 ->
  _curate_input ref index2 = Ok m2 ->
  (forall t, In t index1 <-> In t index2) ->
  forall t, get m1 t = get m2 t.
Proof.
  intros H1 H2 Hsame t.
  rewrite (curate_input_map ref index1 m1 t H1),
          (curate_input_map ref index2 m2 t H2).
  destruct (in_dec string_dec t index1) as [Hin|Hout],
           (in_dec string_dec t index2) as [Hin'|Hout']; auto.
  - apply Hsame in Hin. contradiction.
  - apply Hsame in Hin'. contradiction.
Qed.

Lemma resolution_none {V : Type} (ref : dict V) (items : list string) :
  items <> [] ->
  (resolution ref items = None
   <-> forall k, 1 <= k <= length items ->
         mem ref (join ";" (firstn k items)) = false).
Proof.
  intros Hne. split.
  - unfold resolution.
    destruct (mem ref (join ";" items)) eqn:Efull; [discriminate|].
    intros Hfind k Hk.
    destruct (Nat.eq_dec k (length items)) as [->|Hk'].
    + now rewrite firstn_all.
    + apply (find_none _ _ Hfind). unfold shortenings.
      apply in_map_iff. exists k. split; auto.
      apply -> in_rev. apply in_seq. lia.
  - intros Hall.
    destruct (resolution ref items) as [key|] eqn:E; auto.
    destruct (resolution_prefix ref items key Hne E) as (k & Hk & -> & _).
    pose proof (resolution_in_ref ref _ _ E) as Hmem.
    rewrite (Hall k Hk) in Hmem. discriminate.
Qed.

(** X11. How a taxon of the index ends in the map: when its full key is in
    the table it is mapped to the full key; it is left out of the map (and
    so divided by the grand average) exactly when no prefix of its labels,
    of any length from 1 to n, is a key of the table. *)
Theorem reconciler_outcomes {A : Arith} (ref : dict num) (index : list string)
    (m : dict string) (taxa_a : string) :
  _curate_input ref index = Ok m ->
  In taxa_a index ->
  (mem ref (join ";" (input_key_items taxa_a)) = true ->
   get m taxa_a = Some (join ";" (input_key_items taxa_a)))
  /\ (get m taxa_a = None
      <-> forall k, 1 <= k <= length (input_key_items taxa_a) ->
            mem ref (join ";" (firstn k (input_key_items taxa_a))) = false).
Proof.
  intros Hrun Hin.
  assert (Hne : input_key_items taxa_a <> []).
  { intros Hbad. unfold _curate_input in Hrun.
    rewrite (curate_input_unparsed ref index [] taxa_a (sound_empty ref)
               Hin Hbad) in Hrun.
    discriminate. }
  rewrite (curate_input_map ref index m taxa_a Hrun).
  destruct (in_dec string_dec taxa_a index); [|contradiction].
  split.
  - intros Hfull. unfold resolution. now rewrite Hfull.
  - now apply resolution_none.
Qed.

Lemma reconciler_outcomes_witness :
  (mem ref_AB (join ";" (input_key_items "k__A; p__B;")) = true ->
   get [("k__A; p__B;", "A;B")] "k__A; p__B;"
   = Some (join ";" (input_key_items "k__A; p__B;")))
  /\ (get [("k__A; p__B;", "A;B")] "k__Z;" = None
      <-> forall k, 1 <= k <= length (input_key_items "k__Z;") ->
            mem ref_AB (join ";" (firstn k (input_key_items "k__Z;"))) = false).
Proof.
  split.
  - apply (reconciler_outcomes (A := f64) ref_AB ["k__A; p__B;"; "k__Z;"]
             [("k__A; p__B;", "A;B")] "k__A; p__B;");
      [reflexivity | now left].
  - apply (reconciler_outcomes (A := f64) ref_AB ["k__A; p__B;"; "k__Z;"]
             [("k__A; p__B;", "A;B")] "k__Z;");
      [reflexivity | right; now left].
Defined.

Lemma curate_input_order_free_witness :
  get [(taxon_ABCD, "A;B"); ("k__A;", "A")] "k__A;"
  = get [("k__A;", "A"); (taxon_ABCD, "A;B")] "k__A;"
  /\ forall t,
       get [(taxon_ABCD, "A;B"); ("k__A;", "A")] t
       = get [("k__A;", "A"); (taxon_ABCD, "A;B")] t.
Proof.
  split; [reflexivity|].
  apply (curate_input_order_free (A := f64) ref_AB
           [taxon_ABCD; "k__A;"; "k__Z;"]
           ["k__Z;"; "k__A;"; taxon_ABCD; "k__A;"]
           [(taxon_ABCD, "A;B"); ("k__A;", "A")]
           [("k__A;", "A"); (taxon_ABCD, "A;B")]);
    [reflexivity | reflexivity |].
  intros t. simpl. tauto.
Defined.

(** *** The written table *)

Lemma nth_error_combine {X Y : Type} (l : list X) (l' : list Y) i x y :
  nth_error l i = Some x -> nth_error l' i = Some y ->
  nth_error (combine l l') i = Some (x, y).
Proof.
  revert l' i. induction l as [|a l IH]; intros [|b l'] [|i]; simpl;
    try discriminate.
  - now intros [= ->] [= ->].
  - apply IH.
Qed.

(** The cells after the correction loop, all at once. *)
Lemma corrected_cells {A : Arith} (dv : string -> num) (names : list string)
    (cells0 : list (list num)) (st : norm_state A) :
  length cells0 = length names ->
  rows_corrected_below dv names cells0 (length names) st ->
  df_cells st
  = map (fun p => map (fun x => div x (dv (fst p))) (snd p))
      (combine names cells0).
Proof.
  intros Hlen [Hlen' Hrows]. apply nth_error_ext. intros i.
  rewrite nth_error_map.
  destruct (Nat.lt_ge_cases i (length names)) as [Hlt|Hge].
  - destruct (nth_error names i) as [name|] eqn:En;
      [|apply nth_error_None in En; lia].
    destruct (nth_error cells0 i) as [row|] eqn:Ec;
      [|apply nth_error_None in Ec; lia].
    rewrite (Hrows i name row En Ec), (nth_error_combine _ _ _ _ _ En Ec).
    now rewrite (proj2 (Nat.ltb_lt _ _) Hlt).
  - rewrite (proj2 (nth_error_None _ _)) by lia.
    rewrite (proj2 (nth_error_None _ _)); auto.
    rewrite length_combine. lia.
Qed.

Lemma length_div_row {A : Arith} (row totals : list num) :
  length (div_row row totals) = Nat.min (length row) (length totals).
Proof.
  revert totals. induction row as [|x row IH]; intros [|t totals]; simpl; auto.
Qed.

(** X12. The written table has the rows, the sample columns and the last
    column of the count table, in their order, and is well formed. Each of
    its cells is the count divided by the divisor of its row, divided again
    by the sum pandas takes of its column so divided ([column_sum]: in
    binary64 NaN cells are left out and the cells are added pairwise); rows
    with the same taxon share their divisor. *)
Theorem normalise_output {A : Arith} (ref : dict num)
    (input_taxa_map : dict string) (count_df : DataFrame A)
    (output_path : string) :
  _curate_input ref (index count_df) = Ok input_taxa_map ->
  ref <> [] ->
  well_formed count_df ->
  let dv := divisor_of ref input_taxa_map
              (div (sum (values ref)) (of_nat (length ref))) in
  exists out written,
    normalise ref input_taxa_map count_df output_path = Ok (out, written)
    /\ index written = index count_df
    /\ columns written = columns count_df
    /\ last_col_name written = last_col_name count_df
    /\ last_col written = last_col count_df
    /\ well_formed written
    /\ forall i j name row,
         nth_error (index count_df) i = Some name ->
         nth_error (cells count_df) i = Some row ->
         j < length (columns count_df) ->
         nth j (nth i (cells written) []) zero
         = div (div (nth j row zero) (dv name))
             (column_sum
                (map (fun p => div (nth j (snd p) zero) (dv (fst p)))
                   (combine (index count_df) (cells count_df)))).
Proof.
  intros Hmap Hne Hwf dv.
  pose proof (sound_divisor ref _ (curate_input_sound ref _ _ Hmap)) as Hdiv.
  destruct (normalise_run ref input_taxa_map count_df output_path Hdiv Hne Hwf)
    as (st & _ & Hinv & Hrect & Hnorm).
  destruct Hwf as (Hcells & Hotus & Hrect0).
  pose proof (corrected_cells _ _ _ _ Hcells Hinv) as Hst. fold dv in Hst.
  eexists _, _. split; [exact Hnorm|]. cbn [index columns last_col_name last_col cells].
  assert (Hcol : forall j, j < length (columns count_df) ->
            column (df_cells st) j
            = map (fun p => div (nth j (snd p) zero) (dv (fst p)))
                (combine (index count_df) (cells count_df))).
  { intros j Hj. rewrite Hst. unfold column. rewrite map_map.
    apply map_ext_in. intros [name row] Hin. cbn [fst snd].
    assert (Hlen : length row = length (columns count_df)).
    { rewrite Forall_forall in Hrect0. apply Hrect0.
      now apply in_combine_r in Hin. }
    rewrite (nth_indep _ zero (div zero (dv name)))
      by (rewrite length_map; lia).
    apply (map_nth (fun x => div x (dv name))). }
  refine (conj eq_refl (conj eq_refl (conj eq_refl (conj eq_refl (conj _ _))))).
  - unfold well_formed. cbn [index columns last_col cells].
    refine (conj _ (conj Hotus _)).
    + unfold make_relative. rewrite length_map. now destruct Hinv.
    + unfold make_relative. apply Forall_map.
      rewrite Forall_forall in Hrect |- *. intros row Hin.
      rewrite length_div_row, (Hrect row Hin).
      unfold col_sums. rewrite length_map, length_seq. lia.
  - intros i j name row En Ec Hj.
    destruct Hinv as [Hlen Hrows].
    assert (Hlt : i < length (index count_df))
      by (apply nth_error_Some; congruence).
    pose proof (Hrows i name row En Ec) as Hrow.
    rewrite (proj2 (Nat.ltb_lt _ _) Hlt) in Hrow.
    assert (Hlenrow : length row = length (columns count_df)).
    { rewrite Forall_forall in Hrect0. apply Hrect0.
      eapply nth_error_In; eauto. }
    unfold make_relative.
    rewrite (nth_indep _ [] (div_row [] (col_sums (length (columns count_df))
                                           (df_cells st))))
      by (rewrite length_map; lia).
    rewrite (map_nth (fun r => div_row r (col_sums (length (columns count_df))
                                            (df_cells st)))).
    rewrite (nth_error_nth _ _ [] Hrow).
    rewrite div_row_nth.
    + rewrite col_sums_nth by auto. rewrite (Hcol j Hj).
      f_equal.
      rewrite (nth_indep _ zero (div zero (dv name)))
        by (rewrite length_map; lia).
      apply (map_nth (fun x => div x (dv name))).
    + rewrite length_map. lia.
    + unfold col_sums. rewrite length_map, length_seq. lia.
Qed.

Lemma normalise_output_witness :
  exists out written,
    normalise ref_AB map_ABCD df_zero_column "counts_out.tsv"
    = Ok (out, written)
    /\ index written = index df_zero_column
    /\ last_col written = last_col df_zero_column
    /\ well_formed written.
Proof.
  destruct (normalise_output (A := f64) ref_AB map_ABCD df_zero_column
              "counts_out.tsv")
    as (out & written & Hrun & Hi & _ & _ & Hl & Hwf & _).
  - reflexivity.
  - discriminate.
  - repeat split; repeat constructor.
  - exists out, written. auto.
Defined.

(** *** The whole program *)

Lemma normalise_empty_table {A : Arith} (input_taxa_map : dict string)
    (count_df : DataFrame A) (output_path : string) :
  normalise [] input_taxa_map count_df output_path = Raise ZeroDivisionError.
Proof. reflexivity. Qed.

(** *** Table keys the reconciler can reach *)

Lemma input_labels_fixed taxa :
  Forall (fun label => rstrip label = label) (input_key_items taxa).
Proof.
  unfold input_key_items. rewrite key_items_post. apply Forall_map.
  apply Forall_forall. intros g _. apply rstrip_idem.
Qed.

Lemma Forall_prefix {X : Type} (P : X -> Prop) (l : list X) k :
  Forall P l -> Forall P (firstn k l).
Proof.
  intros H. revert k. induction H as [|x l Hx _ IH]; intros [|k]; simpl;
    constructor; auto.
Qed.

(** X14. Every key the reconciliation stores splits, at its semicolons,
    into labels without trailing whitespace. A table key curated from a
    label that ends in whitespace (the reference parser keeps it) is
    therefore never the resolution of any taxon. *)
Theorem mapped_keys_are_rstripped {A : Arith} (ref : dict num)
    (index : list string) (m : dict string) :
  _curate_input ref index = Ok m ->
  (forall t key, get m t = Some key ->
     Forall (fun label => rstrip label = label) (split ";" key))
  /\ (forall key, ~ Forall (fun label => rstrip label = label) (split ";" key) ->
        forall t, get m t <> Some key).
Proof.
  intros Hrun. pose proof (curate_input_sound ref index m Hrun) as Hs.
  assert (H : forall t key, get m t = Some key ->
            Forall (fun label => rstrip label = label) (split ";" key)).
  { intros t key Hget. destruct (Hs t key Hget) as [Hres Hne].
    destruct (resolution_prefix ref _ key Hne Hres) as (k & Hk & -> & _).
    rewrite split_join.
    - apply Forall_prefix, input_labels_fixed.
    - destruct (input_key_items t); [congruence|].
      destruct k; [lia|discriminate].
    - apply Forall_prefix, input_labels_no_semi. }
  split; auto. intros key Hbad t Hget. apply Hbad. eauto.
Qed.

(** The reference line [k__A ;] is curated to the key of one label with a
    trailing space, which the map never holds. *)
Lemma mapped_keys_are_rstripped_witness :
  join ";" (db_key_items "k__A ;") = "A "
  /\ forall t, get [("k__A ;", "A")] t <> Some "A ".
Proof.
  split; [reflexivity|].
  apply (proj2 (mapped_keys_are_rstripped (A := f64)
                  [("A ", 4%float); ("A", 2%float)] ["k__A ;"]
                  [("k__A ;", "A")] eq_refl) "A ").
  intros H. inversion H as [|? ? Hl _]. discriminate.
Defined.

(** *** Index values that are no text *)

Lemma curate_input_values_text {A : Arith} (ref : dict num)
    (index : list string) :
  forall m0,
    for_each (map_value ref) (map Text index) m0
    = for_each (map_taxon ref) index m0.
Proof.
  induction index as [|t index IH]; intros m0; cbn [map for_each map_value];
    auto.
  destruct (map_taxon ref m0 t); cbn [bind]; auto.
Qed.

Lemma parses_all_text (values : list index_value) :
  Forall parses values ->
  exists index,
    values = map Text index /\ Forall (fun t => input_key_items t <> []) index.
Proof.
  induction 1 as [|v values (taxa_a & -> & Hne) _ (index & -> & Hall)].
  - exists []. split; [reflexivity|constructor].
  - exists (taxa_a :: index). split; [reflexivity|now constructor].
Qed.

(** A run of the loop that ends normally met text only. *)
Lemma curate_input_values_ok {A : Arith} (ref : dict num)
    (values : list index_value) :
  forall m0 m,
    for_each (map_value ref) values m0 = Ok m ->
    exists index,
      values = map Text index /\ for_each (map_taxon ref) index m0 = Ok m.
Proof.
  induction values as [|v values IH]; intros m0 m; cbn [for_each].
  - intros [= <-]. exists []. auto.
  - destruct v as [taxa_a|]; cbn [map_value]; [|discriminate].
    destruct (map_taxon ref m0 taxa_a) as [m1|e] eqn:E; cbn [bind];
      [|discriminate].
    intros Hrun. destruct (IH m1 m Hrun) as (index & -> & Hrest).
    exists (taxa_a :: index). split; [reflexivity|].
    cbn [for_each]. now rewrite E.
Qed.

Lemma curate_input_values_raises {A : Arith} (ref : dict num)
    (values : list index_value) :
  forall m0 e,
    for_each (map_value ref) values m0 = Raise e ->
    e = TypeError \/ e = RuntimeError "Key conversion was not possible.".
Proof.
  induction values as [|v values IH]; intros m0 e; cbn [for_each];
    [discriminate|].
  destruct v as [taxa_a|]; cbn [map_value].
  - destruct (map_taxon ref m0 taxa_a) as [m1|e1] eqn:E; cbn [bind].
    + apply IH.
    + intros [= <-]. right. now destruct (map_taxon_raises ref m0 taxa_a e1 E).
  - cbn [bind]. intros [= <-]. now left.
Qed.

Lemma parses_of_text (index : list string) :
  Forall (fun t => input_key_items t <> []) index ->
  Forall parses (map Text index).
Proof.
  intros H. apply Forall_map. eapply Forall_impl; [|exact H].
  intros t Ht. exists t. auto.
Qed.

Lemma text_parses (index : list string) :
  Forall parses (map Text index) ->
  Forall (fun t => input_key_items t <> []) index.
Proof.
  induction index as [|t index IH]; cbn [map]; intros H; [constructor|].
  inversion H as [|? ? (t' & E & Ht) Hrest]; subst.
  injection E as <-. constructor; auto.
Qed.

Lemma curate_input_values_iff {A : Arith} (ref : dict num)
    (values : list index_value) :
  (exists m, _curate_input_values ref values = Ok m) <-> Forall parses values.
Proof.
  unfold _curate_input_values. split.
  - intros [m Hm].
    destruct (curate_input_values_ok ref values [] m Hm) as (index & -> & Hrun).
    apply parses_of_text. apply Forall_forall. intros t Hin Hbad.
    rewrite (curate_input_unparsed ref index [] t (sound_empty ref) Hin Hbad)
      in Hrun.
    discriminate.
  - intros Hall. destruct (parses_all_text values Hall) as (index & -> & Hidx).
    destruct (curate_input_runs ref index Hidx []) as [m Hm].
    exists m. now rewrite curate_input_values_text.
Qed.

(** The loop stops at the first value it does not accept. *)
Lemma curate_input_values_first {A : Arith} (ref : dict num)
    (before : list index_value) (v : index_value) (rest : list index_value) :
  Forall parses before ->
  ~ parses v ->
  forall m0,
    sound_for ref m0 ->
    for_each (map_value ref) (before ++ v :: rest) m0 = Raise (refusal v).
Proof.
  intros Hbefore Hv.
  induction Hbefore as [|b before (taxa_b & -> & Hb) _ IH]; intros m0 Hs;
    cbn [app for_each].
  - destruct v as [taxa_a|]; cbn [map_value refusal]; [|reflexivity].
    assert (Hbad : input_key_items taxa_a = []).
    { destruct (input_key_items taxa_a) eqn:E; auto.
      exfalso. apply Hv. exists taxa_a. split; auto. congruence. }
    assert (Hm : mem m0 taxa_a = false).
    { destruct (mem m0 taxa_a) eqn:Hm; auto.
      apply mem_get in Hm. destruct Hm as [k Hk].
      now destruct (Hs _ _ Hk). }
    now rewrite (map_taxon_unparsed ref m0 taxa_a Hm Hbad).
  - cbn [map_value].
    destruct (map_taxon_runs ref m0 taxa_b Hb) as [m1 E]. rewrite E.
    cbn [bind]. apply IH. eapply sound_step; eauto.
Qed.

(** X9. Over the index as it is read, the reconciliation succeeds exactly
    when every index value is text with at least a kingdom label. It
    raises [TypeError] at a value that is no text and [RuntimeError] at a
    text with no label, whichever it meets first, and nothing else; on an
    index of text it is the loop of the string model. *)
Theorem curate_input_values_outcomes {A : Arith} (ref : dict num)
    (values : list index_value) :
  ((exists m, _curate_input_values ref values = Ok m) <-> Forall parses values)
  /\ (forall e, _curate_input_values ref values = Raise e ->
        e = TypeError \/ e = RuntimeError "Key conversion was not possible.")
  /\ (forall before v rest,
        values = (before ++ v :: rest)%list ->
        Forall parses before ->
        ~ parses v ->
        _curate_input_values ref values = Raise (refusal v))
  /\ (forall index,
        _curate_input_values ref (map Text index) = _curate_input ref index).
Proof.
  split; [apply curate_input_values_iff|].
  split; [intros e; apply curate_input_values_raises|].
  split; [|intros index; apply curate_input_values_text].
  intros before v rest -> Hbefore Hv.
  apply curate_input_values_first; auto. apply sound_empty.
Qed.

(** *** The whole program *)

Lemma parses_middle (before : list index_value) (v : index_value)
    (rest : list index_value) :
  Forall parses (before ++ v :: rest) -> parses v.
Proof.
  intros H. apply Forall_app in H. destruct H as [_ H].
  now inversion H.
Qed.

(** X13. The program on a count table that has [Taxonomy] as its index,
    numeric sample columns and a last column, one cell of each per row;
    reading the two files aside. When the reference curation raises, the
    run raises the same. Otherwise the run stops at the first index value
    the reconciliation does not accept, with [TypeError] when that value is
    no text (an empty [Taxonomy] cell) and [RuntimeError] when it is text
    without a kingdom label. When all are accepted it raises
    [ZeroDivisionError] for an empty curated table and ends normally for
    any other. These are all its exceptions: no [KeyError] and no other
    [IndexError] occurs. On an index of text the run is that of the string
    model. *)
Theorem run_outcomes {A : Arith} (db_lines : list string) (t : Table A)
    (output_path : string) :
  well_formed (to_frame t) ->
  (forall e, _curate_db db_lines = Raise e ->
     run db_lines t output_path = Raise e)
  /\ (forall db, _curate_db db_lines = Ok db ->
        (forall before v rest,
           taxonomy t = (before ++ v :: rest)%list ->
           Forall parses before ->
           ~ parses v ->
           run db_lines t output_path = Raise (refusal v))
        /\ (Forall parses (taxonomy t) ->
            taxa_to_rrna_copy_dict db = [] ->
            run db_lines t output_path = Raise ZeroDivisionError)
        /\ (Forall parses (taxonomy t) ->
            taxa_to_rrna_copy_dict db <> [] ->
            exists r, run db_lines t output_path = Ok r))
  /\ ((exists r, run db_lines t output_path = Ok r)
      <-> (exists db, _curate_db db_lines = Ok db
                      /\ taxa_to_rrna_copy_dict db <> [])
          /\ Forall parses (taxonomy t))
  /\ (forall e, run db_lines t output_path = Raise e ->
        _curate_db db_lines = Raise e
        \/ e = TypeError
        \/ e = RuntimeError "Key conversion was not possible."
        \/ e = ZeroDivisionError)
  /\ (forall names, taxonomy t = map Text names ->
        run db_lines t output_path = main db_lines (to_frame t) output_path).
Proof.
  intros Hwf.
  assert (Hmain : forall names, taxonomy t = map Text names ->
            run db_lines t output_path
            = main db_lines (to_frame t) output_path).
  { intros names E. unfold run, main.
    destruct (_curate_db db_lines) as [db|e0]; cbn [bind]; auto.
    assert (Hidx : index (to_frame t) = names).
    { unfold to_frame. cbn [index]. rewrite E, map_map.
      cbn [as_text]. apply map_id. }
    rewrite Hidx, E. unfold _curate_input_values, _curate_input.
    now rewrite curate_input_values_text. }
  unfold run in *.
  destruct (_curate_db db_lines) as [db|e0] eqn:Edb; cbn [bind] in *.
  - set (ref := taxa_to_rrna_copy_dict db) in *.
    pose proof (curate_input_values_iff ref (taxonomy t)) as Hiff.
    destruct (_curate_input_values ref (taxonomy t)) as [m|e1] eqn:Ein;
      cbn [bind] in *.
    + assert (Hall : Forall parses (taxonomy t))
        by (apply Hiff; eauto).
      unfold _curate_input_values in Ein.
      destruct (curate_input_values_ok ref _ _ _ Ein) as (names & Eidx & Hrun).
      pose proof (sound_divisor ref _ (curate_input_sound ref names m Hrun))
        as Hdiv.
      assert (Hfirst : forall before v rest,
                taxonomy t = (before ++ v :: rest)%list ->
                ~ parses v -> False).
      { intros before v rest E Hv. apply Hv.
        rewrite E in Hall. eapply parses_middle; eauto. }
      destruct ref as [|kv ref'] eqn:Eref.
      * rewrite normalise_empty_table in *.
        refine (conj _ (conj _ (conj (conj _ _) (conj _ _)))); auto.
        -- discriminate.
        -- intros db' [= <-]. fold ref.
           refine (conj _ (conj _ _)).
           ++ intros before v rest E _ Hv. destruct (Hfirst _ _ _ E Hv).
           ++ reflexivity.
           ++ rewrite Eref. congruence.
        -- intros [r Hr]. discriminate.
        -- intros [(db' & [= <-] & Hne) _]. fold ref in Hne.
           rewrite Eref in Hne. congruence.
        -- intros e [= <-]. auto.
      * destruct (normalise_run (kv :: ref') m (to_frame t) output_path Hdiv
                    ltac:(discriminate) Hwf) as (st & _ & _ & _ & Enorm).
        rewrite Enorm in *.
        refine (conj _ (conj _ (conj (conj _ _) (conj _ _)))); auto.
        -- discriminate.
        -- intros db' [= <-]. fold ref.
           refine (conj _ (conj _ _)).
           ++ intros before v rest E _ Hv. destruct (Hfirst _ _ _ E Hv).
           ++ rewrite Eref. discriminate.
           ++ eauto.
        -- intros _. split; auto. exists db. split; auto.
           fold ref. rewrite Eref. discriminate.
        -- eauto.
        -- discriminate.
    + assert (Hno : ~ Forall parses (taxonomy t)).
      { intros Hall. destruct (proj2 Hiff Hall). discriminate. }
      refine (conj _ (conj _ (conj (conj _ _) (conj _ _)))); auto.
      * discriminate.
      * intros db' [= <-]. fold ref.
        refine (conj _ (conj _ _)).
        -- intros before v rest E Hbefore Hv. f_equal.
           unfold _curate_input_values in Ein. rewrite E in Ein.
           rewrite (curate_input_values_first ref before v rest Hbefore Hv
                      [] (sound_empty ref)) in Ein.
           congruence.
        -- intros Hall. contradiction.
        -- intros Hall. contradiction.
      * intros [r Hr]. discriminate.
      * intros [_ Hall]. contradiction.
      * intros e [= <-].
        unfold _curate_input_values in Ein.
        destruct (curate_input_values_raises ref _ _ _ Ein); auto.
  - refine (conj _ (conj _ (conj (conj _ _) (conj _ _)))); auto.
    + intros e [= <-]. reflexivity.
    + discriminate.
    + intros [r Hr]. discriminate.
    + intros [(db & Hdb & _) _]. discriminate.
    + intros e [= <-]. auto.
Qed.

(** In [table_empty_taxonomy] the empty cell comes before the taxon
    without a label: the run ends in [TypeError]. *)
Lemma run_outcomes_witness :
  run db_one_record table_empty_taxonomy "counts_out.tsv" = Raise TypeError.
Proof.
  destruct (run_outcomes (A := f64) db_one_record table_empty_taxonomy
              "counts_out.tsv") as (_ & Hok & _).
  - repeat split; repeat constructor.
  - pose (db := match _curate_db (A := f64) db_one_record with
                | Ok db => db
                | Raise _ => db_init
                end).
    assert (Edb : _curate_db db_one_record = Ok db) by reflexivity.
    destruct (Hok db Edb) as (Hfirst & _).
    apply (Hfirst [Text taxon_ABCD] NotText [Text "Unassigned"]).
    + reflexivity.
    + repeat constructor. exists taxon_ABCD. split; [reflexivity|discriminate].
    + intros (taxa_a & E & _). discriminate E.
Defined.

(** *** Reading a copy number *)

(** [float] on the spellings of a number: exponent, sign and blanks,
    underscores, a point at either end, more digits than a double holds
    (rounded to nearest, ties to even), overflow to infinity, the smallest
    subnormal and the underflow to zero below half of it, [inf] and [nan]
    in any case; and what it refuses. *)
Lemma float_reads :
  @float f64 "3.0" = Some 3%float
  /\ @float f64 "0.1" = Some 0x1.999999999999ap-4%float
  /\ @float f64 "1e3" = Some 1000%float
  /\ @float f64 "1E+3" = Some 1000%float
  /\ @float f64 (" -2.5e-1" ++ nl) = Some (-0.25)%float
  /\ @float f64 "+1_000.5" = Some 1000.5%float
  /\ @float f64 ".5" = Some 0.5%float
  /\ @float f64 "5." = Some 5%float
  /\ @float f64 "9007199254740993" = Some 9007199254740992%float
  /\ @float f64 "9007199254740995" = Some 9007199254740996%float
  /\ @float f64 "0.30000000000000004" = Some 0x1.3333333333334p-2%float
  /\ @float f64 "1.7976931348623157e308" = Some 0x1.fffffffffffffp1023%float
  /\ @float f64 "1e309" = Some PrimFloat.infinity
  /\ @float f64 "5e-324" = Some 0x1p-1074%float
  /\ @float f64 "2e-324" = Some 0%float
  /\ @float f64 "-Infinity" = Some PrimFloat.neg_infinity
  /\ @float f64 "NaN" = Some PrimFloat.nan
  /\ @float f64 "" = None
  /\ @float f64 "." = None
  /\ @float f64 "e5" = None
  /\ @float f64 "1e" = None
  /\ @float f64 "1__0" = None
  /\ @float f64 "_1" = None
  /\ @float f64 "1 2" = None
  /\ @float f64 "- 1" = None
  /\ @float f64 "0x10" = None
  /\ @float f64 "1,5" = None
  /\ @float f64 "four" = None.
Proof. repeat split; reflexivity. Qed.

(** *** Column sums in binary64 *)

(** pandas adds eight cells of [1/7] pairwise, to [8/7] rounded; each cell
    over that sum is [0.125]. Added from the left the eight cells give a
    smaller sum, and the quotient is [0.12500000000000003]. The eight rows
    of [df_eight_rows] are written as [0.125]. *)
Lemma column_of_sevenths :
  let col : list (@num f64) := repeat (1 / 7)%float 8 in
  map (fun x => @div f64 x (@column_sum f64 col)) col = repeat 0.125%float 8
  /\ @div f64 (1 / 7)%float (@sum f64 col) = 0x1.0000000000001p-3%float
  /\ normalise ref_seven_copies [("k__A;", "A")] df_eight_rows
       "counts_out.tsv"
     = Ok (progress_report (index df_eight_rows) (last_col df_eight_rows)
             "counts_out.tsv",
           @Build_DataFrame f64 (index df_eight_rows) (columns df_eight_rows)
             (repeat [0.125%float] 8) (last_col_name df_eight_rows)
             (last_col df_eight_rows)).
Proof. repeat split; reflexivity. Qed.

(** A NaN cell is left out of the sum of its column, and is NaN in the
    output: the column of [df_missing_count] is written as NaN and [1]. *)
Lemma column_sum_skips_nan :
  let col : list (@num f64) := [PrimFloat.nan; 1%float] in
  @column_sum f64 col = 1%float
  /\ map (fun x => @div f64 x (@column_sum f64 col)) col
     = [PrimFloat.nan; 1%float]
  /\ normalise ref_one_copy [("k__A;", "A")] df_missing_count
       "counts_out.tsv"
     = Ok (progress_report (index df_missing_count)
             (last_col df_missing_count) "counts_out.tsv",
           @Build_DataFrame f64 (index df_missing_count)
             (columns df_missing_count)
             [[PrimFloat.nan]; [1%float]] (last_col_name df_missing_count)
             (last_col df_missing_count)).
Proof. repeat split; reflexivity. Qed.

(** The sum of a column can overflow. The two counts of [df_huge] stay as
    they are when divided by the one copy of their taxon, their sum is
    infinite, and the column that is written holds zeros only. *)
Lemma huge_column_is_written_as_zeros :
  @float f64 "8.98846567431158e307" = Some 0x1p1023%float
  /\ _curate_input ref_one_copy (index df_huge) = Ok [("k__A;", "A")]
  /\ @div f64 0x1p1023%float 1%float = 0x1p1023%float
  /\ @column_sum f64 (column (cells df_huge) 0) = PrimFloat.infinity
  /\ normalise ref_one_copy [("k__A;", "A")] df_huge "counts_out.tsv"
     = Ok (progress_report (index df_huge) (last_col df_huge) "counts_out.tsv",
           @Build_DataFrame f64 (index df_huge) (columns df_huge)
             [[0%float]; [0%float]] (last_col_name df_huge)
             (last_col df_huge))
  /\ @column_sum f64 [0%float; 0%float] = 0%float.
Proof. repeat split; reflexivity. Qed.
